(** * go-bitmaptable: a bit-packed table of booleans

    Shallow embedding of the Go packages [bitmaptable] (bitmaptable.go,
    bitmaptable_ts.go) and [bitmap] (bitmap.go), and the properties of
    their bit addressing, bounds checks, raw buffer access and
    thread-safe wrapper.  bitmaptable.go is embedded in its self-contained
    revision, the one that carries [setBit], [getBit], [calculateSize] and
    [getPos]; its other revision hands the buffer to an external package.

    Conventions of the embedding:
    - Go's [int] is the 64-bit two's complement integer; a value is a [Z]
      inside [int_min, int_max] and every arithmetic operation of the source
      is followed by its wrap-around ([GoInt.wrap]).  [/] and [%] are Go's
      truncated division and remainder ([Z.quot], [Z.rem]).
    - a [byte] is a [Z]; the bytes the code produces stay below 256.
    - a run-time panic (index out of range, negative length given to [make])
      is the outcome [None]; a returned Go tuple is a Rocq tuple under
      [Some].  The Go [error] value is [option Err], with [None] for [nil].
    - [make] is taken to succeed for every non-negative length: running out
      of memory is not modelled. *)

From stdpp Require Import prelude.
From Stdlib Require Import ZArith Lia.

Local Open Scope Z_scope.

(** ** Machine integers *)

Module GoInt.

Definition int_min : Z := - 2 ^ 63.
Definition int_max : Z := 2 ^ 63 - 1.

(** Conversion of an integer value to [int]: wrap-around into
    [int_min, int_max]. *)
Definition wrap (z : Z) : Z := (z + 2 ^ 63) `mod` 2 ^ 64 - 2 ^ 63.

Definition uint64 (z : Z) : Z := z `mod` 2 ^ 64.
Definition uint16 (z : Z) : Z := z `mod` 2 ^ 16.

Definition add (a b : Z) : Z := wrap (a + b).
Definition mul (a b : Z) : Z := wrap (a * b).
Definition div (a b : Z) : Z := wrap (a ÷ b).
Definition rem (a b : Z) : Z := Z.rem a b.

(** [a[i]] on a slice or array: panics unless [0 <= i < len(a)]. *)
Definition index {A} (a : list A) (i : Z) : option A :=
  if decide (0 ≤ i) then a !! Z.to_nat i else None.

(** [make([]byte, n)]: panics on a negative length. *)
Definition make (n : Z) : option (list Z) :=
  if decide (0 ≤ n) then Some (replicate (Z.to_nat n) 0) else None.

(** [len(a)] *)
Definition len {A} (a : list A) : Z := Z.of_nat (length a).

(** [copy(dst, src)]: the first [min(len(dst), len(src))] elements of
    [dst] are overwritten; the result is the new content of [dst]. *)
Definition copy {A} (dst src : list A) : list A :=
  take (length dst) src ++ drop (length src) dst.

End GoInt.

(** ** Package bitmaptable (bitmaptable.go) *)

Module Bitmaptable.
Import GoInt.

Inductive Err := ErrIllegalIndex | ErrIllegalWidth.
Definition error := option Err.

Definition tA : list Z := [1; 2; 4; 8; 16; 32; 64; 128].
Definition tB : list Z := [254; 253; 251; 247; 239; 223; 191; 127].

Definition setBit (by_ : Z) (bit : Z) (v : bool) : option Z :=
  if v then m ← index tA bit; Some (Z.lor by_ m)
  else m ← index tB bit; Some (Z.land by_ m).

Definition getBit (by_ : Z) (bit : Z) : option bool :=
  m ← index tA bit; Some (negb (Z.land by_ m =? 0)).

Definition calculateSize (rows columns : Z) : Z :=
  let size := div (mul rows columns) 8 in
  if decide (rem (mul rows columns) 8 ≠ 0) then add size 1 else size.

Record bitmaptable := mk_bitmaptable {
  rows : Z;            (* uint64 *)
  columns : Z;         (* uint16 *)
  bitmap : list Z      (* []byte *)
}.

Definition newNTS (rows columns : Z) : option bitmaptable :=
  bm ← make (calculateSize rows columns);
  Some {| rows := uint64 rows; columns := uint16 columns; bitmap := bm |}.

Definition getPos (b : bitmaptable) (row column : Z) : Z * Z :=
  let pos := add (mul row (wrap (columns b))) column in
  (div pos 8, rem pos 8).

Definition Rows (b : bitmaptable) : Z := wrap (rows b).
Definition Columns (b : bitmaptable) : Z := wrap (columns b).

(** [Data] on the value of the table: both branches yield the same bytes;
    what distinguishes them is sharing, modelled in [Shared.Data]. *)
Definition Data (b : bitmaptable) (c : bool) : option (list Z) :=
  if negb c then Some (bitmap b)
  else
    data ← make (len (bitmap b));
    Some (copy data (bitmap b)).

Definition Get (b : bitmaptable) (row column : Z) : option (bool * error) :=
  if (column >=? wrap (columns b)) || (row >=? wrap (rows b))
  then Some (false, Some ErrIllegalIndex)
  else
    let '(by_, bit) := getPos b row column in
    d ← index (bitmap b) by_;
    v ← getBit d bit;
    Some (v, None).

Definition Set_ (b : bitmaptable) (row column : Z) (value : bool)
  : option (bitmaptable * error) :=
  if (column >=? wrap (columns b)) || (row >=? wrap (rows b))
  then Some (b, Some ErrIllegalIndex)
  else
    let '(by_, bit) := getPos b row column in
    d ← index (bitmap b) by_;
    d' ← setBit d bit value;
    Some ({| rows := rows b; columns := columns b;
             bitmap := <[Z.to_nat by_ := d']> (bitmap b) |}, None).

End Bitmaptable.

(** ** Package bitmap (bitmap.go), the id/position addressed sibling *)

Module Bitmap.
Import GoInt.

Inductive Err := ErrIllegalIndex.
Definition error := option Err.

Definition tA : list Z := [1; 2; 4; 8; 16; 32; 64; 128].
Definition tB : list Z := [254; 253; 251; 247; 239; 223; 191; 127].

Definition setBit (b : Z) (p : Z) (v : bool) : option Z :=
  if v then m ← index tA p; Some (Z.lor b m)
  else m ← index tB p; Some (Z.land b m).

Definition getBit (b : Z) (p : Z) : option bool :=
  m ← index tA p; Some (negb (Z.land b m =? 0)).

Record bitmap := mk_bitmap {
  i : Z;          (* Amount of identities. *)
  w : Z;          (* Amount of properties per identity. *)
  a : list Z      (* Array containing the actual data. *)
}.

Definition New (size width : Z) : option bitmap :=
  let as_ := mul size width in
  let rest := rem as_ 8 in
  let as_ := div as_ 8 in
  let as_ := if decide (rest ≠ 0) then add as_ 1 else as_ in
  arr ← make as_;
  Some {| i := size; w := width; a := arr |}.

Definition Set_ (s : bitmap) (id pos : Z) (value : bool)
  : option (bitmap * error) :=
  if (pos >=? w s) || (id >? i s)
  then Some (s, Some ErrIllegalIndex)
  else
    let l := add (mul id (w s)) pos in
    let by_ := div l 8 in
    data ← index (a s) by_;
    d' ← setBit data (rem l 8) value;
    Some ({| i := i s; w := w s; a := <[Z.to_nat by_ := d']> (a s) |}, None).

Definition Get (s : bitmap) (id pos : Z) : option (bool * error) :=
  if (pos >=? w s) || (id >? i s)
  then Some (false, Some ErrIllegalIndex)
  else
    let l := add (mul id (w s)) pos in
    let by_ := div l 8 in
    data ← index (a s) by_;
    v ← getBit data (rem l 8);
    Some (v, None).

End Bitmap.

(** ** Slices shared through the heap

    A Go slice is a reference to its backing array.  [Data(false)] hands the
    table's own slice to the caller, so the table and the caller then write
    to one array.  The heap maps a slice to the current content of its
    array; the table struct holds its [bitmap] field as such a reference,
    and its methods run the code of [Bitmaptable] on the content found
    there and store the result back. *)

Module Shared.
Import GoInt.

Abbreviation slice := nat.
Abbreviation heap := (list (list Z)).

Record bitmaptable := mk_ref {
  rows : Z;
  columns : Z;
  bitmap : slice
}.

(** The value of the struct in a heap. *)
Definition load (h : heap) (b : bitmaptable) : option Bitmaptable.bitmaptable :=
  bm ← h !! bitmap b;
  Some (Bitmaptable.mk_bitmaptable (rows b) (columns b) bm).

(** A fresh backing array. *)
Definition alloc (bm : list Z) (h : heap) : slice * heap :=
  (length h, h ++ [bm]).

Definition newNTS (rows columns : Z) (h : heap) : option (bitmaptable * heap) :=
  t ← Bitmaptable.newNTS rows columns;
  let '(s, h') := alloc (Bitmaptable.bitmap t) h in
  Some (mk_ref (Bitmaptable.rows t) (Bitmaptable.columns t) s, h').

Definition Rows (b : bitmaptable) : Z := wrap (rows b).
Definition Columns (b : bitmaptable) : Z := wrap (columns b).

Definition Data (b : bitmaptable) (c : bool) (h : heap) : option (slice * heap) :=
  if negb c then Some (bitmap b, h)
  else
    bm ← h !! bitmap b;
    data ← make (len bm);
    Some (alloc (copy data bm) h).

Definition Get (b : bitmaptable) (row column : Z) (h : heap)
  : option (bool * Bitmaptable.error) :=
  t ← load h b; Bitmaptable.Get t row column.

Definition Set_ (b : bitmaptable) (row column : Z) (value : bool) (h : heap)
  : option (Bitmaptable.error * heap) :=
  t ← load h b;
  r ← Bitmaptable.Set_ t row column value;
  Some (r.2, <[bitmap b := Bitmaptable.bitmap r.1]> h).

(** What a caller does with a slice it holds: [data[i] = v] and [data[i]]. *)
Definition store_byte (data : slice) (i : Z) (v : Z) (h : heap) : option heap :=
  bm ← h !! data;
  _ ← index bm i;
  Some (<[data := <[Z.to_nat i := v]> bm]> h).

Definition load_byte (data : slice) (i : Z) (h : heap) : option Z :=
  bm ← h !! data; index bm i.

End Shared.

(** ** The thread-safe wrapper (bitmaptable_ts.go), run by one thread *)

Module TS.
Import GoInt.

(** [sync.Mutex], as one thread sees it: [Lock] on a locked mutex never
    returns and [Unlock] on an unlocked one is a fatal error; both are the
    outcome [None].  The methods unlock without [defer]: a panic between
    [Lock] and [Unlock] ends the run, as every panic does here. *)
Definition Mutex := bool.
Definition Lock (m : Mutex) : option Mutex := if m then None else Some true.
Definition Unlock (m : Mutex) : option Mutex := if m then Some false else None.

Record ts := mk_ts {
  mu : Mutex;
  b : Shared.bitmaptable
}.

Definition newTS (rows columns : Z) (h : Shared.heap) : option (ts * Shared.heap) :=
  r ← Shared.newNTS rows columns h;
  Some (mk_ts false r.1, r.2).

Definition Rows (t : ts) : Z := Shared.Rows (b t).
Definition Columns (t : ts) : Z := Shared.Columns (b t).

Definition Data (t : ts) (c : bool) (h : Shared.heap)
  : option (Shared.slice * ts * Shared.heap) :=
  m1 ← Lock (mu t);
  r ← Shared.Data (b t) c h;
  m2 ← Unlock m1;
  Some (r.1, mk_ts m2 (b t), r.2).

Definition Get (t : ts) (row column : Z) (h : Shared.heap)
  : option (bool * Bitmaptable.error) :=
  Shared.Get (b t) row column h.

Definition Set_ (t : ts) (row column : Z) (value : bool) (h : Shared.heap)
  : option (Bitmaptable.error * ts * Shared.heap) :=
  m1 ← Lock (mu t);
  r ← Shared.Set_ (b t) row column value h;
  m2 ← Unlock m1;
  Some (r.1, mk_ts m2 (b t), r.2).

End TS.

(** ** Sequences of calls on either variant *)

Module Calls.

Inductive call :=
| CRows
| CColumns
| CGet (row column : Z)
| CSet (row column : Z) (value : bool)
| CData (c : bool).

Inductive result :=
| RInt (n : Z)
| RGet (v : bool) (e : Bitmaptable.error)
| RSet (e : Bitmaptable.error)
| RData (data : Shared.slice).

Definition call_nts (b : Shared.bitmaptable) (c : call) (h : Shared.heap)
  : option (result * Shared.heap) :=
  match c with
  | CRows => Some (RInt (Shared.Rows b), h)
  | CColumns => Some (RInt (Shared.Columns b), h)
  | CGet row column => r ← Shared.Get b row column h; Some (RGet r.1 r.2, h)
  | CSet row column value => r ← Shared.Set_ b row column value h; Some (RSet r.1, r.2)
  | CData c => r ← Shared.Data b c h; Some (RData r.1, r.2)
  end.

Definition call_ts (t : TS.ts) (c : call) (h : Shared.heap)
  : option (result * TS.ts * Shared.heap) :=
  match c with
  | CRows => Some (RInt (TS.Rows t), t, h)
  | CColumns => Some (RInt (TS.Columns t), t, h)
  | CGet row column => r ← TS.Get t row column h; Some (RGet r.1 r.2, t, h)
  | CSet row column value =>
      r ← TS.Set_ t row column value h; Some (RSet r.1.1, r.1.2, r.2)
  | CData c => r ← TS.Data t c h; Some (RData r.1.1, r.1.2, r.2)
  end.

Fixpoint run_nts (b : Shared.bitmaptable) (cs : list call) (h : Shared.heap)
  : option (list result * Shared.heap) :=
  match cs with
  | [] => Some ([], h)
  | c :: cs =>
      r ← call_nts b c h;
      rs ← run_nts b cs r.2;
      Some (r.1 :: rs.1, rs.2)
  end.

Fixpoint run_ts (t : TS.ts) (cs : list call) (h : Shared.heap)
  : option (list result * Shared.heap) :=
  match cs with
  | [] => Some ([], h)
  | c :: cs =>
      r ← call_ts t c h;
      rs ← run_ts r.1.2 cs r.2;
      Some (r.1.1 :: rs.1, rs.2)
  end.

(** [New(rows, columns)] (resp. [NewTS]) followed by the calls. *)
Definition session_nts (rows columns : Z) (cs : list call) (h : Shared.heap)
  : option (list result * Shared.heap) :=
  r ← Shared.newNTS rows columns h; run_nts r.1 cs r.2.

Definition session_ts (rows columns : Z) (cs : list call) (h : Shared.heap)
  : option (list result * Shared.heap) :=
  r ← TS.newTS rows columns h; run_ts r.1 cs r.2.

End Calls.

(** ** The data model of a table and the statements about it *)

Module Model.
Import GoInt Bitmaptable.

(** [ceil(n / 8)] *)
Definition ceil8 (n : Z) : Z := (n + 7) / 8.

(** A table of the data model: the fields are in the range of their types,
    the number of cells is an [int], the buffer holds the
    [ceil(rowCount * columnCount / 8)] bytes of the cells (it is longer only
    when [newNTS] got more columns than a [uint16] counts), and its elements
    are bytes. *)
Record table_inv (b : bitmaptable) : Prop := mk_table_inv {
  inv_rows : 0 ≤ rows b < 2 ^ 64;
  inv_columns : 0 ≤ columns b < 2 ^ 16;
  inv_cells : Rows b * Columns b ≤ int_max;
  inv_len : ceil8 (Rows b * Columns b) ≤ len (bitmap b);
  inv_bytes : Forall (λ d, 0 ≤ d < 256) (bitmap b)
}.

(** Bit [j] of byte [i] of a buffer, bit 0 being the least significant. *)
Definition bit_of (bm : list Z) (i j : Z) : option bool :=
  d ← index bm i; Some (Z.testbit d j).

(** [(row, column)] lies inside the table. *)
Definition in_table (b : bitmaptable) (row column : Z) : Prop :=
  0 ≤ row < Rows b ∧ 0 ≤ column < Columns b.


(** The table of the repository's tests, [newNTS(10, 5)]. *)
Definition test_table : bitmaptable := mk_bitmaptable 10 5 (replicate 7 0).

(** What the accessors are to return on the table constructed with the
    arguments [rowCount] and [columnCount]. *)
Definition accessors_post (rowCount columnCount : Z) : Prop :=
  ∀ b, newNTS rowCount columnCount = Some b →
       Rows b = rowCount ∧ Columns b = columnCount.

End Model.

(** ** Batches of writes *)

Module Writes.
Import Bitmaptable.

(** The calls [b.Set(row, column, value)] of a caller that, like the
    package's own example, drops the returned error. *)
Fixpoint apply_sets (b : bitmaptable) (ws : list (Z * Z * bool))
  : option bitmaptable :=
  match ws with
  | [] => Some b
  | (row, column, value) :: ws =>
      r ← Set_ b row column value; apply_sets r.1 ws
  end.

(** The value the latest write of a batch gave to a cell, if any did. *)
Fixpoint last_write (ws : list (Z * Z * bool)) (row column : Z) : option bool :=
  match ws with
  | [] => None
  | (r, c, v) :: ws =>
      match last_write ws row column with
      | Some v' => Some v'
      | None => if decide (r = row ∧ c = column) then Some v else None
      end
  end.

End Writes.

(** ** The data model of the sibling package *)

Module BitmapModel.
Import GoInt Bitmap.

Record bitmap_inv (s : bitmap) : Prop := mk_bitmap_inv {
  binv_size : 0 ≤ i s;
  binv_width : 0 ≤ w s;
  binv_cells : i s * w s ≤ int_max;
  binv_len : Model.ceil8 (i s * w s) ≤ len (a s);
  binv_bytes : Forall (λ d, 0 ≤ d < 256) (a s)
}.

Definition in_bitmap (s : bitmap) (id pos : Z) : Prop :=
  0 ≤ id < i s ∧ 0 ≤ pos < w s.

(** The error of one package as the error of the other. *)
Definition as_table_error (e : Bitmap.error) : Bitmaptable.error :=
  match e with
  | Some ErrIllegalIndex => Some Bitmaptable.ErrIllegalIndex
  | None => None
  end.

(** The struct of one package with the fields of the other. *)
Definition as_table (s : bitmap) : Bitmaptable.bitmaptable :=
  Bitmaptable.mk_bitmaptable (i s) (w s) (a s).

End BitmapModel.

(** ** The thread-safe bitmap (bitmap.go), run by one thread *)

Module BitmapTS.
Import GoInt.

Record bitmapTS := mk_bitmapTS {
  Bitmap_ : Bitmap.bitmap;
  mu : TS.Mutex
}.

Definition NewTS (size width : Z) : option bitmapTS :=
  s ← Bitmap.New size width;
  Some {| mu := false; Bitmap_ := s |}.

Definition Set_ (s : bitmapTS) (id pos : Z) (value : bool)
  : option (bitmapTS * Bitmap.error) :=
  m1 ← TS.Lock (mu s);
  r ← Bitmap.Set_ (Bitmap_ s) id pos value;
  m2 ← TS.Unlock m1;
  Some ({| Bitmap_ := r.1; mu := m2 |}, r.2).

Definition Get (s : bitmapTS) (id pos : Z)
  : option (bitmapTS * (bool * Bitmap.error)) :=
  m1 ← TS.Lock (mu s);
  r ← Bitmap.Get (Bitmap_ s) id pos;
  m2 ← TS.Unlock m1;
  Some ({| Bitmap_ := Bitmap_ s; mu := m2 |}, r).

Inductive call :=
| CGet (id pos : Z)
| CSet (id pos : Z) (value : bool).

Inductive result :=
| RGet (v : bool) (e : Bitmap.error)
| RSet (e : Bitmap.error).

Definition call_plain (s : Bitmap.bitmap) (c : call)
  : option (Bitmap.bitmap * result) :=
  match c with
  | CGet id pos => r ← Bitmap.Get s id pos; Some (s, RGet r.1 r.2)
  | CSet id pos value => r ← Bitmap.Set_ s id pos value; Some (r.1, RSet r.2)
  end.

Definition call_ts (s : bitmapTS) (c : call) : option (bitmapTS * result) :=
  match c with
  | CGet id pos => r ← Get s id pos; Some (r.1, RGet r.2.1 r.2.2)
  | CSet id pos value => r ← Set_ s id pos value; Some (r.1, RSet r.2)
  end.

Fixpoint run_plain (s : Bitmap.bitmap) (cs : list call)
  : option (Bitmap.bitmap * list result) :=
  match cs with
  | [] => Some (s, [])
  | c :: cs =>
      r ← call_plain s c;
      rs ← run_plain r.1 cs;
      Some (rs.1, r.2 :: rs.2)
  end.

Fixpoint run_ts (s : bitmapTS) (cs : list call)
  : option (bitmapTS * list result) :=
  match cs with
  | [] => Some (s, [])
  | c :: cs =>
      r ← call_ts s c;
      rs ← run_ts r.1 cs;
      Some (rs.1, r.2 :: rs.2)
  end.

End BitmapTS.

(** ** Buffer accesses of a constructed table *)

Module Access.
Import GoInt Bitmaptable.

(** What the allocation by [newNTS(rowCount, columnCount)] is to give every
    cell [0 <= row < rowCount], [0 <= column < columnCount]: a buffer of
    [ceil(rowCount * columnCount / 8)] bytes, above the byte index
    [(row * columnCount + column) / 8] of the cell, in which the byte index
    that [getPos] computes for [Get] and [Set] lies, so that neither
    panics. *)
Definition access_in_buffer (rowCount columnCount : Z) : Prop :=
  ∀ b, newNTS rowCount columnCount = Some b →
    len (bitmap b) = Model.ceil8 (rowCount * columnCount) ∧
    ∀ row column, 0 ≤ row < rowCount → 0 ≤ column < columnCount →
      (row * columnCount + column) / 8 < len (bitmap b) ∧
      is_Some (Get b row column) ∧
      (∀ v, is_Some (Set_ b row column v)) ∧
      (Model.in_table b row column →
       (getPos b row column).1 = (row * Columns b + column) / 8 ∧
       0 ≤ (getPos b row column).1 < len (bitmap b) ∧
       is_Some (index (bitmap b) (getPos b row column).1)) ∧
      (columnCount < 2 ^ 16 →
       (getPos b row column).1 = (row * columnCount + column) / 8).

End Access.

(** * Properties *)

Section machine_integers.
Import GoInt.

Lemma wrap_id z : int_min ≤ z ≤ int_max → wrap z = z.
Proof.
  unfold int_min, int_max, wrap. intros Hz.
  rewrite Z.mod_small; lia.
Qed.

Lemma wrap_range z : int_min ≤ wrap z ≤ int_max.
Proof.
  unfold int_min, int_max, wrap.
  pose proof (Z.mod_pos_bound (z + 2 ^ 63) (2 ^ 64)). lia.
Qed.

Lemma div8_nonneg z : 0 ≤ z ≤ int_max → div z 8 = z / 8.
Proof.
  intros Hz. unfold div. rewrite Z.quot_div_nonneg by lia.
  apply wrap_id. unfold int_min, int_max in *.
  pose proof (Z.div_pos z 8). pose proof (Z.div_le_upper_bound z 8 z).
  lia.
Qed.

Lemma rem8_nonneg z : 0 ≤ z → rem z 8 = z `mod` 8.
Proof. intros Hz. unfold rem. apply Z.rem_mod_nonneg; lia. Qed.

Lemma index_Some {A} (a : list A) i :
  0 ≤ i < len a → is_Some (index a i).
Proof.
  unfold index, len. intros Hi. rewrite decide_True by lia.
  apply lookup_lt_is_Some. lia.
Qed.

Lemma index_lookup {A} (a : list A) i :
  0 ≤ i → index a i = a !! Z.to_nat i.
Proof. intros Hi. unfold index. by rewrite decide_True. Qed.

Lemma index_neg {A} (a : list A) i : i < 0 → index a i = None.
Proof. intros Hi. unfold index. rewrite decide_False; [done | lia]. Qed.

Lemma index_inv {A} (a : list A) i x :
  index a i = Some x → 0 ≤ i < len a ∧ a !! Z.to_nat i = Some x.
Proof.
  unfold index, len. case_decide; [|done]. intros Hx.
  split; [|done]. apply lookup_lt_Some in Hx. lia.
Qed.

Lemma make_inv n bm :
  make n = Some bm → 0 ≤ n ∧ bm = replicate (Z.to_nat n) 0.
Proof. unfold make. case_decide; naive_solver. Qed.

End machine_integers.

Section bits.
Import GoInt Bitmaptable.

Ltac bit_cases bit :=
  let H := fresh in
  assert (H : bit = 0 ∨ bit = 1 ∨ bit = 2 ∨ bit = 3 ∨
              bit = 4 ∨ bit = 5 ∨ bit = 6 ∨ bit = 7) by lia;
  destruct H as [->|[->|[->|[->|[->|[->|[->| ->]]]]]]].

Lemma tA_index bit : 0 ≤ bit < 8 → index tA bit = Some (2 ^ bit).
Proof. intros Hb. bit_cases bit; reflexivity. Qed.

Lemma tB_index bit : 0 ≤ bit < 8 → index tB bit = Some (255 - 2 ^ bit).
Proof. intros Hb. bit_cases bit; reflexivity. Qed.

Lemma tA_index_range bit : is_Some (index tA bit) ↔ 0 ≤ bit < 8.
Proof.
  split.
  - intros [m Hm]. apply index_inv in Hm as [Hm _]. exact Hm.
  - intros Hb. rewrite tA_index by done. eauto.
Qed.

Lemma tB_index_range bit : is_Some (index tB bit) ↔ 0 ≤ bit < 8.
Proof.
  split.
  - intros [m Hm]. apply index_inv in Hm as [Hm _]. exact Hm.
  - intros Hb. rewrite tB_index by done. eauto.
Qed.

Lemma land_pow2_testbit d n :
  0 ≤ n → negb (Z.land d (2 ^ n) =? 0) = Z.testbit d n.
Proof.
  intros Hn. destruct (Z.testbit d n) eqn:Hd.
  - apply negb_true_iff, Z.eqb_neq. intros H0.
    assert (Hb : Z.testbit (Z.land d (2 ^ n)) n = true)
      by (rewrite Z.land_spec, Hd, Z.pow2_bits_true; done).
    rewrite H0, Z.bits_0 in Hb. discriminate.
  - apply negb_false_iff, Z.eqb_eq, Z.bits_inj'. intros k Hk.
    rewrite Z.land_spec, Z.bits_0, Z.pow2_bits_eqb by done.
    destruct (Z.eqb_spec n k) as [->|]; [by rewrite Hd | apply andb_false_r].
Qed.

Lemma getBit_testbit d bit :
  0 ≤ bit < 8 → getBit d bit = Some (Z.testbit d bit).
Proof.
  intros Hb. unfold getBit. rewrite tA_index by done. simpl.
  by rewrite land_pow2_testbit by lia.
Qed.

Lemma byte_high_bits d j : 0 ≤ d < 256 → 8 ≤ j → Z.testbit d j = false.
Proof.
  intros Hd Hj.
  by apply (proj1 (Z.bounded_iff_bits_nonneg' 8 d ltac:(lia) ltac:(lia))).
Qed.

Lemma testbit_mask bit j :
  0 ≤ bit < 8 → Z.testbit (255 - 2 ^ bit) j = bool_decide (0 ≤ j < 8 ∧ j ≠ bit).
Proof.
  intros Hb. destruct (decide (0 ≤ j < 8)) as [Hj|Hj].
  - bit_cases bit; bit_cases j; reflexivity.
  - rewrite bool_decide_eq_false_2 by tauto.
    destruct (decide (j < 0)); [by apply Z.testbit_neg_r|].
    apply byte_high_bits; [|lia].
    bit_cases bit; simpl; lia.
Qed.

(** The byte written by [setBit] differs from the one read in bit [bit]
    alone, which takes the value [v]. *)
Lemma setBit_testbit d bit v :
  0 ≤ d < 256 → 0 ≤ bit < 8 →
  ∃ d', setBit d bit v = Some d' ∧ 0 ≤ d' < 256 ∧
        ∀ j, Z.testbit d' j = if decide (j = bit) then v else Z.testbit d j.
Proof.
  intros Hd Hb. unfold setBit. destruct v.
  - rewrite tA_index by done. simpl. eexists; split; [done|]. split.
    + change 256 with (2 ^ 8).
      apply Z.bounded_iff_bits_nonneg'; [lia|apply Z.lor_nonneg; lia|].
      intros l Hl. rewrite Z.lor_spec, byte_high_bits by lia.
      rewrite Z.pow2_bits_false by lia. done.
    + intros j. rewrite Z.lor_spec, Z.pow2_bits_eqb by lia.
      case_decide as Hj; [subst; rewrite Z.eqb_refl; apply orb_true_r|].
      rewrite (proj2 (Z.eqb_neq bit j)) by done. apply orb_false_r.
  - rewrite tB_index by done. simpl. eexists; split; [done|]. split.
    + change 256 with (2 ^ 8).
      apply Z.bounded_iff_bits_nonneg'; [lia|apply Z.land_nonneg; lia|].
      intros l Hl. rewrite Z.land_spec, byte_high_bits by lia. done.
    + intros j. rewrite Z.land_spec, testbit_mask by done.
      case_decide as Hj.
      * subst. rewrite bool_decide_eq_false_2 by tauto. apply andb_false_r.
      * destruct (decide (0 ≤ j < 8)).
        -- rewrite bool_decide_eq_true_2 by tauto. apply andb_true_r.
        -- rewrite bool_decide_eq_false_2 by tauto. rewrite andb_false_r.
           symmetry. destruct (decide (j < 0)); [by apply Z.testbit_neg_r|].
           apply byte_high_bits; lia.
Qed.

End bits.

Section addressing.
Import GoInt Bitmaptable Model.

Lemma Columns_inv b : table_inv b → Columns b = columns b.
Proof.
  intros [_ Hc _ _ _]. apply wrap_id. unfold int_min, int_max. lia.
Qed.

(** The flat position of a cell is computed without wrap-around and lies
    below the number of cells. *)
Lemma position_exact b row column :
  table_inv b → in_table b row column →
  add (mul row (wrap (columns b))) column = row * Columns b + column ∧
  0 ≤ row * Columns b + column < Rows b * Columns b.
Proof.
  intros Hinv [Hr Hc]. pose proof (inv_cells _ Hinv) as Hcells.
  assert (Hpos : 0 ≤ row * Columns b + column < Rows b * Columns b) by nia.
  split; [|done]. fold (Columns b). unfold add, mul.
  rewrite (wrap_id (row * Columns b)) by (unfold int_min; nia).
  apply wrap_id. unfold int_min. lia.
Qed.

Lemma getPos_exact b row column :
  table_inv b → in_table b row column →
  getPos b row column =
    ((row * Columns b + column) / 8, (row * Columns b + column) `mod` 8).
Proof.
  intros Hinv Hin. destruct (position_exact _ _ _ Hinv Hin) as [Hp Hr].
  pose proof (inv_cells _ Hinv). unfold getPos. rewrite Hp.
  rewrite div8_nonneg, rem8_nonneg by lia. done.
Qed.

(** The arithmetic behind the buffer size: the byte of a cell of an
    [r] by [c] table lies below [ceil(r * c / 8)]. *)
Lemma byte_index_bound r c row column :
  0 ≤ row < r → 0 ≤ column < c →
  0 ≤ (row * c + column) / 8 < ceil8 (r * c).
Proof.
  intros Hr Hc. unfold ceil8.
  assert (0 ≤ row * c + column < r * c) by nia.
  Z.div_mod_to_equations. lia.
Qed.

Lemma bounds_check_passes b row column :
  in_table b row column →
  (column >=? wrap (columns b)) || (row >=? wrap (rows b)) = false.
Proof.
  intros [Hr Hc]. unfold Rows, Columns in *.
  apply orb_false_iff. rewrite !Z.geb_leb. split; apply Z.leb_gt; lia.
Qed.

Lemma bit_index_range z : 0 ≤ z `mod` 8 < 8.
Proof. apply Z.mod_pos_bound. lia. Qed.

Lemma byte_of_cell b row column :
  table_inv b → in_table b row column →
  ∃ d, bitmap b !! Z.to_nat ((row * Columns b + column) / 8) = Some d ∧
       index (bitmap b) ((row * Columns b + column) / 8) = Some d ∧
       0 ≤ d < 256.
Proof.
  intros Hinv [Hr Hc].
  pose proof (byte_index_bound _ _ _ _ Hr Hc) as Hby.
  pose proof (inv_len _ Hinv) as Hlen.
  destruct (index_Some (bitmap b) ((row * Columns b + column) / 8)) as [d Hd];
    [lia|].
  exists d. rewrite index_lookup in Hd by lia. rewrite index_lookup by lia.
  split; [done|split; [done|]].
  apply (Forall_lookup_1 _ _ _ _ (inv_bytes _ Hinv) Hd).
Qed.

Lemma Get_in_table b row column :
  table_inv b → in_table b row column →
  ∃ d, bitmap b !! Z.to_nat ((row * Columns b + column) / 8) = Some d ∧
       Get b row column =
         Some (Z.testbit d ((row * Columns b + column) `mod` 8), None).
Proof.
  intros Hinv Hin. destruct (byte_of_cell _ _ _ Hinv Hin) as (d & Hd & Hi & _).
  exists d. split; [done|]. unfold Get.
  rewrite bounds_check_passes, getPos_exact by done.
  rewrite Hi. simpl. rewrite getBit_testbit by apply bit_index_range. done.
Qed.

Lemma Set_in_table b row column v :
  table_inv b → in_table b row column →
  ∃ d d',
    bitmap b !! Z.to_nat ((row * Columns b + column) / 8) = Some d ∧
    0 ≤ d < 256 ∧
    setBit d ((row * Columns b + column) `mod` 8) v = Some d' ∧
    Set_ b row column v =
      Some (mk_bitmaptable (rows b) (columns b)
              (<[Z.to_nat ((row * Columns b + column) / 8) := d']> (bitmap b)),
            None).
Proof.
  intros Hinv Hin. destruct (byte_of_cell _ _ _ Hinv Hin) as (d & Hd & Hi & Hr).
  destruct (setBit_testbit d _ v Hr (bit_index_range (row * Columns b + column)))
    as (d' & Hs & _).
  exists d, d'. do 3 (split; [done|]). unfold Set_.
  rewrite bounds_check_passes, getPos_exact by done.
  rewrite Hi. simpl. rewrite Hs. done.
Qed.

(** [Set] keeps a table inside the data model, whatever its arguments. *)
Lemma Set_preserves_inv b row column v b' e :
  table_inv b → Set_ b row column v = Some (b', e) → table_inv b'.
Proof.
  intros Hinv. unfold Set_.
  destruct (_ || _); [by intros [= <- <-]|].
  destruct (getPos b row column) as [by_ bit].
  destruct (index (bitmap b) by_) as [d|] eqn:Hd; [simpl|done].
  destruct (setBit d bit v) as [d'|] eqn:Hs; [simpl|done].
  intros [= <- <-]. destruct Hinv as [H1 H2 H3 H4 H5].
  apply index_inv in Hd as [Hby Hd].
  assert (Hdr : 0 ≤ d < 256) by apply (Forall_lookup_1 _ _ _ _ H5 Hd).
  assert (Hbit : 0 ≤ bit < 8).
  { destruct v; unfold setBit in Hs.
    - apply tA_index_range. destruct (index tA bit); [eauto|done].
    - apply tB_index_range. destruct (index tB bit); [eauto|done]. }
  destruct (setBit_testbit d bit v Hdr Hbit) as (d2 & Hs2 & Hr2 & _).
  assert (d2 = d') as -> by congruence.
  split; simpl; try done.
  - unfold len in *. by rewrite length_insert.
  - apply Forall_insert; done.
Qed.

End addressing.

Section cells.
Import GoInt Bitmaptable Model.

Lemma setBit_inv d bit v d' :
  0 ≤ d < 256 → 0 ≤ bit < 8 → setBit d bit v = Some d' →
  ∀ j, Z.testbit d' j = if decide (j = bit) then v else Z.testbit d j.
Proof.
  intros Hd Hb Hs. destruct (setBit_testbit d bit v Hd Hb) as (d2 & Hs2 & _ & Hj).
  by replace d' with d2 by congruence.
Qed.

(** [Get] reads the bit of the cell. *)
Lemma Get_bit_of b row column :
  table_inv b → in_table b row column →
  Get b row column =
    v ← bit_of (bitmap b) ((row * Columns b + column) / 8)
                          ((row * Columns b + column) `mod` 8);
    Some (v, None).
Proof.
  intros Hinv Hin. destruct (Get_in_table _ _ _ Hinv Hin) as (d & Hd & ->).
  destruct (byte_of_cell _ _ _ Hinv Hin) as (d2 & Hd2 & Hi & _).
  unfold bit_of. rewrite Hi. simpl. congruence.
Qed.

(** [Set] writes the bit of the cell and no other bit of the buffer. *)
Lemma Set_bit_of b row column v :
  table_inv b → in_table b row column →
  ∃ b', Set_ b row column v = Some (b', None) ∧
        rows b' = rows b ∧ columns b' = columns b ∧
        length (bitmap b') = length (bitmap b) ∧
        bit_of (bitmap b') ((row * Columns b + column) / 8)
                           ((row * Columns b + column) `mod` 8) = Some v ∧
        ∀ i j, (i, j) ≠ ((row * Columns b + column) / 8,
                         (row * Columns b + column) `mod` 8) →
               bit_of (bitmap b') i j = bit_of (bitmap b) i j.
Proof.
  intros Hinv Hin.
  destruct (Set_in_table _ _ _ v Hinv Hin) as (d & d' & Hd & Hr & Hs & HS).
  pose proof (setBit_inv _ _ _ _ Hr (bit_index_range _) Hs) as Hbits.
  destruct Hin as [Hrow Hcol].
  pose proof (byte_index_bound _ _ _ _ Hrow Hcol) as [Hby _].
  apply lookup_lt_Some in Hd as Hlt.
  eexists. split; [exact HS|]. simpl. do 2 (split; [done|]).
  split; [apply length_insert|]. split.
  - unfold bit_of. rewrite index_lookup by done.
    rewrite list_lookup_insert_eq by done. simpl.
    by rewrite Hbits, decide_True.
  - intros i j Hij. unfold bit_of.
    destruct (decide (0 ≤ i)) as [Hi|Hi];
      [|by rewrite !index_neg by lia].
    rewrite !index_lookup by done.
    destruct (decide (i = (row * Columns b + column) / 8)) as [->|Hne].
    + rewrite list_lookup_insert_eq, Hd by done. simpl.
      rewrite Hbits, decide_False; [done|congruence].
    + rewrite list_lookup_insert_ne by lia. done.
Qed.

(** Two cells of a table have two flat positions. *)
Lemma position_inj b r1 c1 r2 c2 :
  in_table b r1 c1 → in_table b r2 c2 → (r1, c1) ≠ (r2, c2) →
  r1 * Columns b + c1 ≠ r2 * Columns b + c2.
Proof.
  intros [Hr1 Hc1] [Hr2 Hc2] Hne Heq.
  destruct (Z.lt_trichotomy r1 r2) as [?|[->|?]]; [nia| |nia].
  apply Hne. f_equal. lia.
Qed.

Lemma byte_bit_inj p q :
  p ≠ q → (p / 8, p `mod` 8) ≠ (q / 8, q `mod` 8).
Proof.
  intros Hne [= Hd Hm]. apply Hne.
  rewrite (Z.div_mod p 8), (Z.div_mod q 8) by lia. congruence.
Qed.

End cells.

Section construction.
Import GoInt Bitmaptable Model.

(** Without wrap-around [calculateSize] is the rounded-up byte count. *)
Lemma calculateSize_ceil rows columns :
  0 ≤ rows * columns ≤ int_max →
  calculateSize rows columns = ceil8 (rows * columns).
Proof.
  intros Hp. unfold calculateSize, mul, add, ceil8.
  rewrite (wrap_id (rows * columns)) by (unfold int_min; lia).
  rewrite div8_nonneg, rem8_nonneg by lia.
  unfold int_max in Hp.
  case_decide as Hr.
  - rewrite wrap_id by (unfold int_min, int_max; Z.div_mod_to_equations; lia).
    Z.div_mod_to_equations. lia.
  - Z.div_mod_to_equations. lia.
Qed.

Lemma wrap_uint64 z : int_min ≤ z ≤ int_max → wrap (uint64 z) = z.
Proof.
  unfold int_min, int_max, wrap, uint64. intros Hz.
  rewrite Zplus_mod_idemp_l. rewrite Z.mod_small; lia.
Qed.

Lemma wrap_uint16 z : wrap (uint16 z) = z `mod` 2 ^ 16.
Proof.
  unfold uint16. pose proof (Z.mod_pos_bound z (2 ^ 16)).
  apply wrap_id. unfold int_min, int_max. lia.
Qed.

Lemma replicate_zero_bytes n : Forall (λ d : Z, d = 0) (replicate n 0).
Proof. apply Forall_replicate. done. Qed.

(** [newNTS] on arguments whose product is an [int]. *)
Lemma newNTS_inv rowCount columnCount :
  0 ≤ rowCount ≤ int_max → 0 ≤ columnCount ≤ int_max →
  rowCount * columnCount ≤ int_max →
  ∃ b, newNTS rowCount columnCount = Some b ∧
       Rows b = rowCount ∧ Columns b = columnCount `mod` 2 ^ 16 ∧
       bitmap b = replicate (Z.to_nat (ceil8 (rowCount * columnCount))) 0 ∧
       len (bitmap b) = ceil8 (rowCount * columnCount) ∧
       table_inv b.
Proof.
  intros Hr Hc Hp. unfold newNTS.
  rewrite calculateSize_ceil by nia.
  assert (Hsz : 0 ≤ ceil8 (rowCount * columnCount))
    by (unfold ceil8; Z.div_mod_to_equations; nia).
  unfold make. rewrite decide_True by done. simpl.
  eexists. split; [done|].
  assert (HR : wrap (uint64 rowCount) = rowCount)
    by (apply wrap_uint64; unfold int_min; lia).
  pose proof (wrap_uint16 columnCount) as HC.
  pose proof (Z.mod_pos_bound columnCount (2 ^ 16)) as Hm.
  assert (Hle : columnCount `mod` 2 ^ 16 ≤ columnCount)
    by (apply Z.mod_le; lia).
  assert (Hlen : len (replicate (Z.to_nat (ceil8 (rowCount * columnCount))) 0)
                 = ceil8 (rowCount * columnCount))
    by (unfold len; rewrite length_replicate; lia).
  unfold Rows, Columns. simpl. do 4 (split; [done|]).
  split; unfold Rows, Columns; simpl.
  - unfold uint64. apply Z.mod_pos_bound. lia.
  - unfold uint16. lia.
  - rewrite HR, HC. nia.
  - rewrite HR, HC, Hlen. unfold ceil8.
    assert (rowCount * (columnCount `mod` 2 ^ 16) ≤ rowCount * columnCount) by nia.
    Z.div_mod_to_equations. lia.
  - apply Forall_replicate. lia.
Qed.


End construction.

(** * The claims *)

Section claims.
Import GoInt Bitmaptable Model.

Ltac evaluated :=
  vm_compute; repeat first [discriminate | reflexivity | split | constructor].

Lemma test_table_inv : table_inv test_table.
Proof. split; evaluated. Qed.







(** On every table of the data model with [Rows() > 0] and [Columns() > 0]
    and every cell [(row, column)], the byte index
    [(row * Columns() + column) / 8] that [getPos] computes is below
    [ceil(Rows() * Columns() / 8)] and so inside the buffer, and neither
    [Get] nor [Set] panics. *)
Theorem byte_index_in_buffer b row column :
  table_inv b → 0 < Rows b → 0 < Columns b → in_table b row column →
  (getPos b row column).1 = (row * Columns b + column) / 8 ∧
  (row * Columns b + column) / 8 < ceil8 (Rows b * Columns b) ∧
  0 ≤ (getPos b row column).1 < len (bitmap b) ∧
  is_Some (index (bitmap b) (getPos b row column).1) ∧
  is_Some (Get b row column) ∧
  ∀ v, is_Some (Set_ b row column v).
Proof.
  intros Hinv _ _ Hin. rewrite (getPos_exact _ _ _ Hinv Hin). simpl.
  destruct Hin as [Hr Hc].
  pose proof (byte_index_bound _ _ _ _ Hr Hc) as Hby.
  pose proof (inv_len _ Hinv) as Hlen.
  split; [done|]. split; [lia|]. split; [lia|].
  split; [apply index_Some; lia|]. split.
  - destruct (Get_in_table b row column Hinv) as (d & _ & ->); [done|eauto].
  - intros v.
    destruct (Set_in_table b row column v Hinv) as (d & d' & _ & _ & _ & ->);
      [done|eauto].
Qed.

Lemma byte_index_in_buffer_witness :
  (getPos test_table 9 4).1 = 6 ∧ 6 < ceil8 50 ∧
  is_Some (Get test_table 9 4).
Proof.
  pose proof (byte_index_in_buffer test_table 9 4) as H.
  destruct H as (H1 & H2 & _ & _ & H3 & _); [split; evaluated..|].
  split; [exact H1|]. split; [exact H2 | exact H3].
Defined.




(** C9, as stated, fails beyond the range of the [uint16] field:
    [New(1, 65537).Columns()] is 1. *)
Lemma accessors_truncated : ¬ accessors_post 1 65537.
Proof.
  intros H.
  destruct (H (mk_bitmaptable 1 1 (replicate (Z.to_nat 8193) 0))) as [_ HC];
    [vm_compute; reflexivity|].
  vm_compute in HC. discriminate.
Qed.

(** C9 (amended). Accessors: on the table constructed by
    [newNTS(rowCount, columnCount)] with [0 <= rowCount] and
    [0 <= columnCount < 2^16], [Rows()] returns [rowCount] and [Columns()]
    returns [columnCount]; the accessors are total functions of the table
    and leave it as it is. *)
Theorem accessors_return_counts rowCount columnCount :
  0 ≤ rowCount ≤ int_max → 0 ≤ columnCount < 2 ^ 16 →
  accessors_post rowCount columnCount.
Proof.
  intros Hr Hc b. unfold newNTS.
  destruct (make _) as [bm|]; [simpl|done]. intros [= <-].
  unfold Rows, Columns. simpl. split.
  - apply wrap_uint64. unfold int_min. lia.
  - rewrite wrap_uint16. apply Z.mod_small. lia.
Qed.

Lemma accessors_return_counts_witness :
  newNTS 10 5 = Some test_table ∧
  Rows test_table = 10 ∧ Columns test_table = 5.
Proof.
  split; [reflexivity|].
  apply (accessors_return_counts 10 5); evaluated.
Defined.

(** The bounds check of [bitmaptable.Get] and [bitmaptable.Set]: the error
    is returned exactly when [column >= Columns()] or [row >= Rows()], and
    then it is [ErrIllegalIndex], with [false] and an untouched table. *)
Lemma Get_error_iff b row column :
  (∃ v e, Get b row column = Some (v, Some e)) ↔
  (Columns b ≤ column ∨ Rows b ≤ row).
Proof.
  unfold Get, Rows, Columns.
  destruct (column >=? wrap (columns b)) eqn:Hc;
    [|destruct (row >=? wrap (rows b)) eqn:Hr]; simpl.
  - apply Z.geb_le in Hc. split; [lia|eauto].
  - apply Z.geb_le in Hr. split; [lia|eauto].
  - rewrite Z.geb_leb in Hc, Hr. apply Z.leb_gt in Hc, Hr.
    split; [|lia]. intros (v & e & H).
    destruct (index (bitmap b) _) as [d|]; simpl in H; [|done].
    destruct (getBit d _); simpl in H; congruence.
Qed.

Lemma Get_illegal b row column :
  Columns b ≤ column ∨ Rows b ≤ row →
  Get b row column = Some (false, Some ErrIllegalIndex).
Proof.
  unfold Get, Rows, Columns. intros H.
  destruct (column >=? wrap (columns b)) eqn:Hc; [done|].
  destruct (row >=? wrap (rows b)) eqn:Hr; [done|].
  rewrite Z.geb_leb in Hc, Hr. apply Z.leb_gt in Hc, Hr. lia.
Qed.

Lemma Set_error_iff b row column value :
  (∃ b' e, Set_ b row column value = Some (b', Some e)) ↔
  (Columns b ≤ column ∨ Rows b ≤ row).
Proof.
  unfold Set_, Rows, Columns.
  destruct (column >=? wrap (columns b)) eqn:Hc;
    [|destruct (row >=? wrap (rows b)) eqn:Hr]; simpl.
  - apply Z.geb_le in Hc. split; [lia|eauto].
  - apply Z.geb_le in Hr. split; [lia|eauto].
  - rewrite Z.geb_leb in Hc, Hr. apply Z.leb_gt in Hc, Hr.
    split; [|lia]. intros (b' & e & H).
    destruct (index (bitmap b) _) as [d|]; simpl in H; [|done].
    destruct (setBit d _ value); simpl in H; congruence.
Qed.

Lemma Set_illegal b row column value :
  Columns b ≤ column ∨ Rows b ≤ row →
  Set_ b row column value = Some (b, Some ErrIllegalIndex).
Proof.
  unfold Set_, Rows, Columns. intros H.
  destruct (column >=? wrap (columns b)) eqn:Hc; [done|].
  destruct (row >=? wrap (rows b)) eqn:Hr; [done|].
  rewrite Z.geb_leb in Hc, Hr. apply Z.leb_gt in Hc, Hr. lia.
Qed.

(** The table of [TestBitmaptableGetSet], 1000 rows of 12 columns: rows
    1001 and 1000 are refused, row 999 is served. *)
Lemma bitmaptable_bounds_1000 :
  ∃ b, newNTS 1000 12 = Some b ∧
       Get b 1001 0 = Some (false, Some ErrIllegalIndex) ∧
       Set_ b 1001 0 true = Some (b, Some ErrIllegalIndex) ∧
       Get b 1000 0 = Some (false, Some ErrIllegalIndex) ∧
       Set_ b 1000 0 true = Some (b, Some ErrIllegalIndex) ∧
       Get b 999 11 = Some (false, None) ∧
       (∃ b', Set_ b 999 11 true = Some (b', None) ∧
              Get b' 999 11 = Some (true, None)).
Proof.
  eexists. split; [reflexivity|].
  do 5 (split; [vm_compute; reflexivity|]).
  eexists. split; [vm_compute; reflexivity|]. vm_compute; reflexivity.
Qed.

(** C5. The bounds check of the sibling [bitmap.Get] and [bitmap.Set] reads
    [id > s.i]: the boundary [id = size] passes it.  On [New(1000, 12)],
    [Get(1000, 0)] and [Set(1000, 0, true)] index the 1500-byte array at
    1500 and panic, while [id = 1001] is refused; on [New(1001, 4)], whose
    last byte is half used, [Get(1001, 0)] returns [false] without an error
    and [Set(1001, 0, true)] writes bit 4 of byte 500 without an error. *)
Theorem bitmap_boundary_id_accepted :
  (∃ s, Bitmap.New 1000 12 = Some s ∧ len (Bitmap.a s) = 1500 ∧
        Bitmap.Get s 1000 0 = None ∧
        Bitmap.Set_ s 1000 0 true = None ∧
        Bitmap.Get s 1001 0 = Some (false, Some Bitmap.ErrIllegalIndex) ∧
        Bitmap.Set_ s 1001 0 true = Some (s, Some Bitmap.ErrIllegalIndex)) ∧
  (∃ s, Bitmap.New 1001 4 = Some s ∧ len (Bitmap.a s) = 501 ∧
        Bitmap.Get s 1001 0 = Some (false, None) ∧
        ∃ s', Bitmap.Set_ s 1001 0 true = Some (s', None) ∧
              Bitmap.a s' !! 500%nat = Some 16 ∧
              Bitmap.Get s' 1001 0 = Some (true, None)).
Proof.
  split.
  - eexists. split; [reflexivity|].
    do 4 (split; [vm_compute; reflexivity|]). vm_compute; reflexivity.
  - eexists. split; [reflexivity|].
    do 2 (split; [vm_compute; reflexivity|]).
    eexists. split; [vm_compute; reflexivity|].
    split; [vm_compute; reflexivity|]. vm_compute; reflexivity.
Qed.

(** C6. No lower bound is checked.  On the 10 by 5 table, [(1, -1)] passes
    the check and is served from the bit of cell [(0, 4)]: [Get(1, -1)]
    returns no error, [Set(1, -1, true)] returns no error and turns
    [Get(0, 4)] to [true]; [Get(-1, 0)] and [Set(-1, 0, true)] pass the check,
    compute position -5 and panic on [tA[-5]]; [Get(-2, 0)] panics on
    [bitmap[-1]]. *)
Theorem negative_index_unchecked :
  Get test_table 1 (-1) = Some (false, None) ∧
  (∃ b', Set_ test_table 1 (-1) true = Some (b', None) ∧
         Get test_table 0 4 = Some (false, None) ∧
         Get b' 0 4 = Some (true, None) ∧
         Get b' 1 (-1) = Some (true, None)) ∧
  getPos test_table (-1) 0 = (0, -5) ∧
  Get test_table (-1) 0 = None ∧
  Set_ test_table (-1) 0 true = None ∧
  getPos test_table (-2) 0 = (-1, -2) ∧
  Get test_table (-2) 0 = None.
Proof.
  split; [reflexivity|]. split.
  - eexists. split; [reflexivity|]. split; [reflexivity|].
    split; reflexivity.
  - do 4 (split; [reflexivity|]). reflexivity.
Qed.

End claims.

Section raw_access.
Import GoInt.

Lemma make_len (bm : list Z) : make (len bm) = Some (replicate (length bm) 0).
Proof.
  unfold make, len. rewrite decide_True by lia. by rewrite Nat2Z.id.
Qed.

Lemma copy_whole (bm : list Z) : copy (replicate (length bm) 0) bm = bm.
Proof.
  unfold copy. rewrite length_replicate, firstn_all.
  rewrite drop_ge by (by rewrite length_replicate). apply app_nil_r.
Qed.

Lemma Get_same_buffer b row column (h1 h2 : Shared.heap) :
  h1 !! Shared.bitmap b = h2 !! Shared.bitmap b →
  Shared.Get b row column h1 = Shared.Get b row column h2.
Proof. intros H. unfold Shared.Get, Shared.load. by rewrite H. Qed.

Lemma store_byte_inv data i v (h h2 : Shared.heap) :
  Shared.store_byte data i v h = Some h2 →
  ∃ bm, h !! data = Some bm ∧ 0 ≤ i < len bm ∧
        h2 = <[data := <[Z.to_nat i := v]> bm]> h.
Proof.
  unfold Shared.store_byte. intros H.
  destruct (h !! data) as [bm|] eqn:Hbm; simpl in H; [|done].
  destruct (index bm i) as [d|] eqn:Hd; simpl in H; [|done].
  apply index_inv in Hd as [Hi _]. exists bm. by simplify_eq.
Qed.

Lemma Set_other_slice b row column value (h h2 : Shared.heap) e data :
  Shared.Set_ b row column value h = Some (e, h2) →
  data ≠ Shared.bitmap b → h2 !! data = h !! data.
Proof.
  unfold Shared.Set_. intros H Hne.
  destruct (Shared.load h b) as [t|]; simpl in H; [|done].
  destruct (Bitmaptable.Set_ t row column value) as [r|]; simpl in H; [|done].
  injection H as _ <-. by rewrite list_lookup_insert_ne.
Qed.

(** C7. Raw access: with the table's buffer [bm] live in the heap,
    [Data(true)] returns a slice other than the table's, of the content
    [bm], and leaves the table as it was; a byte stored into that copy
    changes neither the table's buffer nor what any [Get] returns, and a
    [Set] on the table does not change the copy.  [Data(false)] returns the
    table's own slice and changes nothing; a byte stored into it is the
    table's byte from then on, and every [Get] reads the buffer so
    changed. *)
Theorem Data_copy_or_alias (b : Shared.bitmaptable) (h : Shared.heap) bm :
  h !! Shared.bitmap b = Some bm →
  (∃ data h1,
     Shared.Data b true h = Some (data, h1) ∧
     data ≠ Shared.bitmap b ∧
     h1 !! data = Some bm ∧
     h1 !! Shared.bitmap b = Some bm ∧
     (∀ row column, Shared.Get b row column h1 = Shared.Get b row column h) ∧
     (∀ i v h2, Shared.store_byte data i v h1 = Some h2 →
        h2 !! data = Some (<[Z.to_nat i := v]> bm) ∧
        h2 !! Shared.bitmap b = Some bm ∧
        ∀ row column, Shared.Get b row column h2 = Shared.Get b row column h) ∧
     (∀ row column value e h2,
        Shared.Set_ b row column value h1 = Some (e, h2) →
        h2 !! data = Some bm)) ∧
  (Shared.Data b false h = Some (Shared.bitmap b, h) ∧
   ∀ i v h2, Shared.store_byte (Shared.bitmap b) i v h = Some h2 →
     h2 !! Shared.bitmap b = Some (<[Z.to_nat i := v]> bm) ∧
     Shared.load_byte (Shared.bitmap b) i h2 = Some v ∧
     ∀ row column,
       Shared.Get b row column h2 =
       Bitmaptable.Get
         (Bitmaptable.mk_bitmaptable (Shared.rows b) (Shared.columns b)
            (<[Z.to_nat i := v]> bm)) row column).
Proof.
  intros Hbm. apply lookup_lt_Some in Hbm as Hlt. split.
  - exists (length h), (h ++ [bm]).
    assert (Hold : (h ++ [bm]) !! Shared.bitmap b = Some bm)
      by (by rewrite lookup_app_l).
    assert (Hnew : (h ++ [bm]) !! length h = Some bm)
      by (by apply list_lookup_middle).
    split.
    { unfold Shared.Data. simpl. rewrite Hbm. simpl.
      rewrite make_len. simpl. by rewrite copy_whole. }
    split; [lia|]. do 2 (split; [done|]). split; [|split].
    + intros row column. apply Get_same_buffer. congruence.
    + intros i v h2 Hst.
      apply store_byte_inv in Hst as (bm2 & Hbm2 & Hi & ->).
      assert (bm2 = bm) as -> by congruence.
      apply lookup_lt_Some in Hnew as Hlt2.
      split; [by apply list_lookup_insert_eq|].
      assert (Hkeep : <[length h := <[Z.to_nat i := v]> bm]> (h ++ [bm])
                        !! Shared.bitmap b = Some bm)
        by (rewrite list_lookup_insert_ne by lia; done).
      split; [done|].
      intros row column. apply Get_same_buffer. congruence.
    + intros row column value e h2 HS.
      rewrite (Set_other_slice _ _ _ _ _ _ _ _ HS); [done|lia].
  - split; [done|]. intros i v h2 Hst.
    apply store_byte_inv in Hst as (bm2 & Hbm2 & Hi & ->).
    assert (bm2 = bm) as -> by congruence.
    assert (Hnow : <[Shared.bitmap b := <[Z.to_nat i := v]> bm]> h
                     !! Shared.bitmap b = Some (<[Z.to_nat i := v]> bm))
      by (by apply list_lookup_insert_eq).
    split; [done|]. split.
    + unfold Shared.load_byte. rewrite Hnow. simpl.
      rewrite index_lookup by lia. apply list_lookup_insert_eq.
      unfold len in Hi. lia.
    + intros row column. unfold Shared.Get, Shared.load. by rewrite Hnow.
Qed.

Lemma Data_copy_or_alias_witness :
  (∃ data h1,
     Shared.Data (Shared.mk_ref 10 5 0) true [replicate 7 0] = Some (data, h1) ∧
     data ≠ 0%nat ∧ h1 !! data = Some (replicate 7 0) ∧
     h1 !! 0%nat = Some (replicate 7 0)) ∧
  Shared.Data (Shared.mk_ref 10 5 0) false [replicate 7 0]
    = Some (0%nat, [replicate 7 0]).
Proof.
  destruct (Data_copy_or_alias (Shared.mk_ref 10 5 0) [replicate 7 0]
              (replicate 7 0))
    as [(data & h1 & H1 & H2 & H3 & H4 & _) [H5 _]]; [reflexivity|].
  split; [|exact H5]. exists data, h1. auto.
Defined.

(** The run of [TestBitmaptable]: [data := bm.Data(false); data[1] = 123]
    shows in [bm.bitmap[1]] and in [Get(1, 3)], the cell at bit 0 of byte 1;
    [data2 := bm.Data(true)] holds 123 at index 1, and [data2[1] = 111]
    leaves [data[1]] and [bm.bitmap[1]] at 123. *)
Lemma raw_access_test :
  ∃ b h0 data h1 h2 data2 h3 h4,
    Shared.newNTS 10 5 [] = Some (b, h0) ∧
    Shared.Get b 1 3 h0 = Some (false, None) ∧
    Shared.Data b false h0 = Some (data, h1) ∧
    Shared.store_byte data 1 123 h1 = Some h2 ∧
    Shared.load_byte (Shared.bitmap b) 1 h2 = Some 123 ∧
    Shared.Get b 1 3 h2 = Some (true, None) ∧
    Shared.Data b true h2 = Some (data2, h3) ∧
    Shared.load_byte data2 1 h3 = Some 123 ∧
    Shared.store_byte data2 1 111 h3 = Some h4 ∧
    Shared.load_byte data2 1 h4 = Some 111 ∧
    Shared.load_byte data 1 h4 = Some 123 ∧
    Shared.load_byte (Shared.bitmap b) 1 h4 = Some 123 ∧
    Shared.Get b 1 3 h4 = Some (true, None).
Proof.
  do 8 eexists.
  do 12 (split; [vm_compute; reflexivity|]). vm_compute; reflexivity.
Qed.

End raw_access.

Section wrapper.
Import Calls.

Lemma call_ts_unlocked b c h :
  call_ts (TS.mk_ts false b) c h =
  r ← call_nts b c h; Some (r.1, TS.mk_ts false b, r.2).
Proof.
  destruct c as [| |row column|row column value|cp]; simpl; try done.
  - unfold TS.Get. simpl. by destruct (Shared.Get b row column h).
  - unfold TS.Set_. simpl. by destruct (Shared.Set_ b row column value h).
  - unfold TS.Data. simpl. by destruct (Shared.Data b cp h).
Qed.

Lemma run_ts_unlocked b cs : ∀ h,
  run_ts (TS.mk_ts false b) cs h = run_nts b cs h.
Proof.
  induction cs as [|c cs IH]; intros h; [done|]. simpl.
  rewrite call_ts_unlocked.
  destruct (call_nts b c h) as [[r h1]|]; [simpl|done].
  by rewrite IH.
Qed.

(** C8. Variant equivalence: from any heap, [NewTS(rows, columns)] followed
    by a sequence of [Rows], [Columns], [Get], [Set] and [Data] calls made by
    one thread returns the results, reaches the heap and panics exactly as
    [New(rows, columns)] followed by the same calls. *)
Theorem ts_equivalent rows columns cs (h : Shared.heap) :
  session_ts rows columns cs h = session_nts rows columns cs h.
Proof.
  unfold session_ts, session_nts, TS.newTS.
  destruct (Shared.newNTS rows columns h) as [[b h1]|]; [simpl|done].
  apply run_ts_unlocked.
Qed.

(** The run of [TestBitmapTS] on both variants. *)
Lemma ts_session_test :
  fst <$> session_ts 1000 4 [CSet 50 1 true; CGet 50 1; CGet 50 2;
                             CSet 1000 0 true; CRows; CColumns; CData false;
                             CData true] []
  = Some [RSet None; RGet true None; RGet false None;
          RSet (Some Bitmaptable.ErrIllegalIndex); RInt 1000; RInt 4;
          RData 0%nat; RData 1%nat].
Proof. vm_compute. reflexivity. Qed.

End wrapper.

(** * Further properties of the code *)

Section byte_primitives.
Import GoInt Bitmaptable Model.

(** X1. [setBit] then [getBit] on one byte: the written bit reads back, the
    seven others read as before, and the result is a byte again. *)
Theorem setBit_getBit d bit v :
  0 ≤ d < 256 → 0 ≤ bit < 8 →
  ∃ d', setBit d bit v = Some d' ∧ 0 ≤ d' < 256 ∧
        getBit d' bit = Some v ∧
        ∀ j, 0 ≤ j < 8 → j ≠ bit → getBit d' j = getBit d j.
Proof.
  intros Hd Hb.
  destruct (setBit_testbit d bit v Hd Hb) as (d' & Hs & Hr & Hbits).
  exists d'. do 2 (split; [done|]). split.
  - rewrite getBit_testbit, Hbits, decide_True; done.
  - intros j Hj Hne. rewrite !getBit_testbit, Hbits, decide_False; done.
Qed.

Lemma setBit_getBit_witness :
  ∃ d', setBit 123 2 true = Some d' ∧ 0 ≤ d' < 256 ∧
        getBit d' 2 = Some true ∧
        ∀ j, 0 ≤ j < 8 → j ≠ 2 → getBit d' j = getBit 123 j.
Proof. apply (setBit_getBit 123 2 true); lia. Defined.

(** X2. The bit helpers do not validate the bit position: they panic on the
    lookup in [tA] or [tB] exactly when it is outside [0, 7]. *)
Theorem bit_position_unchecked d bit v :
  (getBit d bit = None ↔ ¬ 0 ≤ bit < 8) ∧
  (setBit d bit v = None ↔ ¬ 0 ≤ bit < 8).
Proof.
  split.
  - unfold getBit. rewrite <- tA_index_range.
    destruct (index tA bit) as [m|]; simpl.
    + split; [done|]. intros H. destruct H. eauto.
    + split; [|done]. intros _ [m Hm]. done.
  - unfold setBit. destruct v.
    + rewrite <- tA_index_range.
      destruct (index tA bit) as [m|]; simpl.
      * split; [done|]. intros H. destruct H. eauto.
      * split; [|done]. intros _ [m Hm]. done.
    + rewrite <- tB_index_range.
      destruct (index tB bit) as [m|]; simpl.
      * split; [done|]. intros H. destruct H. eauto.
      * split; [|done]. intros _ [m Hm]. done.
Qed.

End byte_primitives.

Section composition.
Import GoInt Bitmaptable Model Writes.

Ltac evaluated :=
  vm_compute; repeat first [discriminate | reflexivity | split | constructor].

(** Two buffers of one length with the same bits are the same buffer. *)
Lemma buffer_ext (bm1 bm2 : list Z) :
  length bm1 = length bm2 →
  (∀ i j, bit_of bm1 i j = bit_of bm2 i j) → bm1 = bm2.
Proof.
  intros Hlen Hbits. apply list_eq. intros k.
  assert (H : ∀ j, (bm1 !! k ≫= λ d, Some (Z.testbit d j)) =
                   (bm2 !! k ≫= λ d, Some (Z.testbit d j))).
  { intros j. specialize (Hbits (Z.of_nat k) j). unfold bit_of in Hbits.
    by rewrite !index_lookup, Nat2Z.id in Hbits by lia. }
  destruct (bm1 !! k) as [d1|], (bm2 !! k) as [d2|]; simpl in H;
    [|by specialize (H 0)..|done].
  f_equal. apply Z.bits_inj. intros j. specialize (H j). congruence.
Qed.

Lemma table_ext b1 b2 :
  rows b1 = rows b2 → columns b1 = columns b2 →
  length (bitmap b1) = length (bitmap b2) →
  (∀ i j, bit_of (bitmap b1) i j = bit_of (bitmap b2) i j) → b1 = b2.
Proof.
  destruct b1, b2. simpl. intros -> -> Hlen Hbits.
  f_equal. by apply buffer_ext.
Qed.

Lemma in_table_same b b' row column :
  rows b' = rows b → columns b' = columns b →
  in_table b row column → in_table b' row column.
Proof. unfold in_table, Rows, Columns. by intros -> ->. Qed.

(** All the bits of the buffer after a [Set] inside the table. *)
Lemma Set_bits b row column v :
  table_inv b → in_table b row column →
  ∃ b', Set_ b row column v = Some (b', None) ∧
        rows b' = rows b ∧ columns b' = columns b ∧
        length (bitmap b') = length (bitmap b) ∧
        table_inv b' ∧
        ∀ i j, bit_of (bitmap b') i j =
               if decide ((i, j) = ((row * Columns b + column) / 8,
                                    (row * Columns b + column) `mod` 8))
               then Some v else bit_of (bitmap b) i j.
Proof.
  intros Hinv Hin.
  destruct (Set_bit_of _ _ _ v Hinv Hin) as (b' & HS & Hr & Hc & Hl & Hb & Hf).
  exists b'. do 4 (split; [done|]).
  split; [eauto using Set_preserves_inv|].
  intros i j. case_decide as Hij; [|by apply Hf].
  by simplify_eq.
Qed.

Lemma Get_after_Set b r c v b1 row column :
  table_inv b → in_table b r c → in_table b row column →
  Set_ b r c v = Some (b1, None) →
  Get b1 row column =
    if decide (r = row ∧ c = column) then Some (v, None) else Get b row column.
Proof.
  intros Hinv Hin1 Hin2 HS.
  destruct (Set_bits _ _ _ v Hinv Hin1) as (b' & HS' & Hr & Hc & _ & Hinv' & Hb).
  assert (b' = b1) as -> by congruence.
  rewrite (Get_bit_of b1 row column), (Get_bit_of b row column)
    by eauto using in_table_same.
  replace (Columns b1) with (Columns b) by (unfold Columns; by rewrite Hc).
  rewrite Hb. destruct (decide (r = row ∧ c = column)) as [[-> ->]|Hd].
  - by rewrite decide_True.
  - rewrite decide_False; [done|].
    apply not_eq_sym, byte_bit_inj. apply (position_inj b); [done..|].
    intros [= -> ->]. tauto.
Qed.

(** X3. Writing the value a cell already holds leaves the table as it is. *)
Theorem Set_same_value b row column v :
  table_inv b → in_table b row column →
  Get b row column = Some (v, None) →
  Set_ b row column v = Some (b, None).
Proof.
  intros Hinv Hin HG.
  destruct (Set_bits _ _ _ v Hinv Hin) as (b' & HS & Hr & Hc & Hl & _ & Hb).
  rewrite HS. do 2 f_equal. apply table_ext; [done..|].
  intros i j. rewrite Hb. case_decide as Hij; [|done].
  simplify_eq.
  rewrite (Get_bit_of _ _ _ Hinv Hin) in HG.
  destruct (bit_of _ _ _) as [v0|]; simpl in HG; congruence.
Qed.

Lemma Set_same_value_witness :
  Set_ test_table 5 4 false = Some (test_table, None).
Proof. apply (Set_same_value test_table 5 4 false); split; evaluated. Defined.

(** X4. A second write to a cell wins: [Set(row, column, v1)] followed by
    [Set(row, column, v2)] leaves the table that [Set(row, column, v2)]
    alone leaves. *)
Theorem Set_overwrite b row column v1 v2 :
  table_inv b → in_table b row column →
  ∃ b1, Set_ b row column v1 = Some (b1, None) ∧
        Set_ b1 row column v2 = Set_ b row column v2.
Proof.
  intros Hinv Hin.
  destruct (Set_bits _ _ _ v1 Hinv Hin) as (b1 & HS1 & Hr1 & Hc1 & Hl1 & Hinv1 & Hb1).
  assert (Hin1 : in_table b1 row column) by eauto using in_table_same.
  destruct (Set_bits _ _ _ v2 Hinv1 Hin1) as (b12 & HS12 & Hr12 & Hc12 & Hl12 & _ & Hb12).
  destruct (Set_bits _ _ _ v2 Hinv Hin) as (b2 & HS2 & Hr2 & Hc2 & Hl2 & _ & Hb2).
  exists b1. split; [done|]. rewrite HS12, HS2. do 2 f_equal.
  apply table_ext; [congruence..|].
  intros i j. rewrite Hb12, Hb2, Hb1.
  replace (Columns b1) with (Columns b) by (unfold Columns; by rewrite Hc1).
  by case_decide.
Qed.

Lemma Set_overwrite_witness :
  ∃ b1, Set_ test_table 5 4 true = Some (b1, None) ∧
        Set_ b1 5 4 false = Set_ test_table 5 4 false.
Proof. apply (Set_overwrite test_table 5 4 true false); split; evaluated. Defined.

(** X5. Writes to two cells commute: either order leaves the same table. *)
Theorem Set_commute b r1 c1 v1 r2 c2 v2 :
  table_inv b → in_table b r1 c1 → in_table b r2 c2 → (r1, c1) ≠ (r2, c2) →
  ∃ b1 b2 b12,
    Set_ b r1 c1 v1 = Some (b1, None) ∧ Set_ b r2 c2 v2 = Some (b2, None) ∧
    Set_ b1 r2 c2 v2 = Some (b12, None) ∧ Set_ b2 r1 c1 v1 = Some (b12, None).
Proof.
  intros Hinv Hin1 Hin2 Hne.
  destruct (Set_bits _ _ _ v1 Hinv Hin1) as (b1 & HS1 & Hr1 & Hc1 & Hl1 & Hinv1 & Hb1).
  destruct (Set_bits _ _ _ v2 Hinv Hin2) as (b2 & HS2 & Hr2 & Hc2 & Hl2 & Hinv2 & Hb2).
  assert (Hin12 : in_table b1 r2 c2) by eauto using in_table_same.
  assert (Hin21 : in_table b2 r1 c1) by eauto using in_table_same.
  destruct (Set_bits _ _ _ v2 Hinv1 Hin12) as (b12 & HS12 & Hr12 & Hc12 & Hl12 & _ & Hb12).
  destruct (Set_bits _ _ _ v1 Hinv2 Hin21) as (b21 & HS21 & Hr21 & Hc21 & Hl21 & _ & Hb21).
  exists b1, b2, b12. do 3 (split; [done|]). rewrite HS21. do 2 f_equal.
  apply table_ext; [congruence..|].
  pose proof (byte_bit_inj _ _ (position_inj b _ _ _ _ Hin1 Hin2 Hne)) as Hpos.
  intros i j. rewrite Hb12, Hb21, Hb1, Hb2.
  replace (Columns b1) with (Columns b) by (unfold Columns; by rewrite Hc1).
  replace (Columns b2) with (Columns b) by (unfold Columns; by rewrite Hc2).
  repeat case_decide; congruence.
Qed.

Lemma Set_commute_witness :
  ∃ b1 b2 b12,
    Set_ test_table 5 4 true = Some (b1, None) ∧
    Set_ test_table 5 3 true = Some (b2, None) ∧
    Set_ b1 5 3 true = Some (b12, None) ∧ Set_ b2 5 4 true = Some (b12, None).
Proof.
  apply (Set_commute test_table 5 4 true 5 3 true);
    solve [split; evaluated | discriminate].
Defined.

Lemma apply_sets_reads ws : ∀ b row column,
  table_inv b → Forall (λ w, in_table b w.1.1 w.1.2) ws →
  in_table b row column →
  ∃ b', apply_sets b ws = Some b' ∧ table_inv b' ∧
        rows b' = rows b ∧ columns b' = columns b ∧
        Get b' row column =
          match last_write ws row column with
          | Some v => Some (v, None)
          | None => Get b row column
          end.
Proof.
  induction ws as [|[[r c] v] ws IH]; intros b row column Hinv Hws Hin.
  - exists b. done.
  - apply Forall_cons in Hws as [Hw Hws]. simpl in Hw.
    destruct (Set_bits _ _ _ v Hinv Hw) as (b1 & HS & Hr & Hc & _ & Hinv1 & _).
    assert (Hws1 : Forall (λ w, in_table b1 w.1.1 w.1.2) ws).
    { eapply Forall_impl; [exact Hws|]. intros w. by apply in_table_same. }
    assert (Hin1 : in_table b1 row column) by eauto using in_table_same.
    destruct (IH b1 row column Hinv1 Hws1 Hin1) as (b' & Hrun & Hinv' & Hr' & Hc' & HG).
    exists b'. simpl. rewrite HS. simpl.
    split; [done|]. split; [done|]. do 2 (split; [congruence|]).
    rewrite HG. destruct (last_write ws row column); [done|].
    rewrite (Get_after_Set b r c v b1 row column) by done. by case_decide.
Qed.

(** X6. A batch of writes inside the table: every write is accepted, the table
    stays in the data model, and each cell then reads the value of the latest
    write to it, or what it read before when no write touched it. *)
Theorem batch_last_write b ws row column :
  table_inv b → Forall (λ w, in_table b w.1.1 w.1.2) ws →
  in_table b row column →
  ∃ b', apply_sets b ws = Some b' ∧ table_inv b' ∧
        rows b' = rows b ∧ columns b' = columns b ∧
        Get b' row column =
          match last_write ws row column with
          | Some v => Some (v, None)
          | None => Get b row column
          end.
Proof.
  revert b. induction ws as [|[[r c] v] ws IH]; intros b Hinv Hws Hin.
  - exists b. done.
  - apply Forall_cons in Hws as [Hw Hws]. simpl in Hw.
    destruct (Set_bits _ _ _ v Hinv Hw) as (b1 & HS & Hr & Hc & _ & Hinv1 & _).
    destruct (IH b1) as (b' & Hrun & Hinv' & Hr' & Hc' & HG);
      [done| |by eapply in_table_same|].
    { eapply Forall_impl; [exact Hws|]. intros w. by apply in_table_same. }
    exists b'. simpl. rewrite HS. simpl.
    do 2 (split; [done|]). do 2 (split; [congruence|]).
    rewrite HG. destruct (last_write ws row column); [done|].
    rewrite (Get_after_Set b r c v b1 row column) by done. by case_decide.
Qed.

Lemma batch_last_write_witness :
  ∃ b', apply_sets test_table [(5, 4, true); (6, 0, true); (5, 4, false)] = Some b' ∧
        table_inv b' ∧ rows b' = 10 ∧ columns b' = 5 ∧
        Get b' 5 4 = Some (false, None).
Proof.
  apply (batch_last_write test_table
           [(5, 4, true); (6, 0, true); (5, 4, false)] 5 4);
    solve [split; evaluated | evaluated].
Defined.

(** X7. From construction on: after [newNTS(rowCount, columnCount)] with a
    product that is an [int], and any batch of writes to cells with
    [row < rowCount] and [column < columnCount mod 2^16], every such cell
    reads the latest value written to it, and [false] when none was. *)
Theorem fresh_table_batch rowCount columnCount ws row column :
  0 ≤ rowCount ≤ int_max → 0 ≤ columnCount ≤ int_max →
  rowCount * columnCount ≤ int_max →
  Forall (λ w, (0 ≤ w.1.1 < rowCount) ∧
               (0 ≤ w.1.2 < columnCount `mod` 2 ^ 16)) ws →
  0 ≤ row < rowCount → 0 ≤ column < columnCount `mod` 2 ^ 16 →
  ∃ b b', newNTS rowCount columnCount = Some b ∧
          apply_sets b ws = Some b' ∧
          Get b' row column =
            Some (default false (last_write ws row column), None).
Proof.
  intros Hr Hc Hp Hws Hrow Hcol.
  destruct (newNTS_inv _ _ Hr Hc Hp) as (b & Hb & HR & HC & Hbm & _ & Hinv).
  assert (Hin : in_table b row column) by (unfold in_table; by rewrite HR, HC).
  assert (Hws' : Forall (λ w, in_table b w.1.1 w.1.2) ws).
  { eapply Forall_impl; [exact Hws|]. intros w. unfold in_table.
    by rewrite HR, HC. }
  destruct (apply_sets_reads ws b row column Hinv Hws' Hin)
    as (b' & Hrun & _ & _ & _ & HG).
  exists b, b'. do 2 (split; [done|]). rewrite HG.
  destruct (last_write ws row column); [done|]. simpl.
  destruct (Get_in_table _ _ _ Hinv Hin) as (d & Hd & ->).
  assert (Hz : Forall (λ d, d = 0) (bitmap b))
    by (rewrite Hbm; apply replicate_zero_bytes).
  by rewrite (Forall_lookup_1 _ _ _ _ Hz Hd), Z.bits_0.
Qed.

Lemma fresh_table_batch_witness :
  ∃ b b', newNTS 1000 12 = Some b ∧
          apply_sets b [(5, 11, true); (5, 10, true); (5, 11, false)] = Some b' ∧
          Get b' 5 10 = Some (true, None).
Proof.
  apply (fresh_table_batch 1000 12
           [(5, 11, true); (5, 10, true); (5, 11, false)] 5 10); evaluated.
Defined.

End composition.

Section construction_edges.
Import GoInt Bitmaptable Model.

Ltac evaluated :=
  vm_compute; repeat first [discriminate | reflexivity | split | constructor].

(** X8. The buffer is the smallest that holds the cells: when the product of
    the arguments is an [int], [8 * calculateSize(rows, columns)] is at
    least the number of cells and exceeds it by less than 8. *)
Theorem calculateSize_tight rows columns :
  0 ≤ rows * columns ≤ int_max →
  rows * columns ≤ 8 * calculateSize rows columns < rows * columns + 8.
Proof.
  intros Hp. rewrite calculateSize_ceil by done. unfold ceil8.
  Z.div_mod_to_equations. lia.
Qed.

Lemma calculateSize_tight_witness :
  1001 * 4 ≤ 8 * calculateSize 1001 4 < 1001 * 4 + 8.
Proof. apply (calculateSize_tight 1001 4). evaluated. Defined.

(** X9. When construction panics: [make] gets a negative length exactly when
    the wrapped product [rows * columns] is -8, or -16 or less.  Every other
    product, the negative ones from -1 to -7 and from -9 to -15 included,
    gives a table. *)
Theorem newNTS_panics_iff rows columns :
  newNTS rows columns = None ↔
  (mul rows columns = -8 ∨ mul rows columns ≤ -16).
Proof.
  unfold newNTS, calculateSize.
  pose proof (wrap_range (rows * columns)) as Hp. fold (mul rows columns) in Hp.
  set (p := mul rows columns) in *. unfold int_min, int_max in Hp.
  assert (Hq : div p 8 = p ÷ 8).
  { apply wrap_id. unfold int_min, int_max.
    Z.to_euclidean_division_equations. lia. }
  rewrite Hq. unfold rem, add.
  assert (Hs : wrap (p ÷ 8 + 1) = p ÷ 8 + 1).
  { apply wrap_id. unfold int_min, int_max.
    Z.to_euclidean_division_equations. lia. }
  rewrite Hs. unfold make.
  case_decide as Hr; case_decide as Hn; simpl; split; try done;
    try (intros _; Z.to_euclidean_division_equations; lia);
    try (intros H; exfalso; Z.to_euclidean_division_equations; lia).
Qed.

(** X10. What a constructed table answers for: [Rows()] is the row argument,
    whatever its sign, [Columns()] is the column argument modulo 2^16, and
    [Get] returns an error exactly for [column >= columns mod 2^16] or
    [row >= rows].  A table built with 65536 columns refuses every
    non-negative column. *)
Theorem constructed_bounds rows columns b row column :
  int_min ≤ rows ≤ int_max → newNTS rows columns = Some b →
  Rows b = rows ∧ Columns b = columns `mod` 2 ^ 16 ∧
  ((∃ v e, Get b row column = Some (v, Some e)) ↔
   (columns `mod` 2 ^ 16 ≤ column ∨ rows ≤ row)).
Proof.
  intros Hr. unfold newNTS.
  destruct (make _) as [bm|]; [simpl|done]. intros [= <-].
  assert (HR : Rows (mk_bitmaptable (uint64 rows) (uint16 columns) bm) = rows)
    by (by apply wrap_uint64).
  assert (HC : Columns (mk_bitmaptable (uint64 rows) (uint16 columns) bm)
               = columns `mod` 2 ^ 16) by apply wrap_uint16.
  do 2 (split; [done|]). by rewrite Get_error_iff, HR, HC.
Qed.

Lemma constructed_bounds_witness :
  Rows (mk_bitmaptable 1 0 (replicate (Z.to_nat 8192) 0)) = 1 ∧
  Columns (mk_bitmaptable 1 0 (replicate (Z.to_nat 8192) 0)) = 0 ∧
  ((∃ v e, Get (mk_bitmaptable 1 0 (replicate (Z.to_nat 8192) 0)) 0 0
           = Some (v, Some e)) ↔
   (65536 `mod` 2 ^ 16 ≤ 0 ∨ 1 ≤ 0)).
Proof.
  apply (constructed_bounds 1 65536); [evaluated|vm_compute; reflexivity].
Defined.

(** X11. The bounds check of [Get] and [Set], for every table and all arguments:
    both return an error exactly when [column >= Columns()] or
    [row >= Rows()]; the error is [ErrIllegalIndex], [Get] returns [false]
    with it and [Set] leaves the table untouched. *)
Theorem bounds_check_exact b row column value :
  ((∃ v e, Get b row column = Some (v, Some e)) ↔
   (Columns b ≤ column ∨ Rows b ≤ row)) ∧
  ((∃ b' e, Set_ b row column value = Some (b', Some e)) ↔
   (Columns b ≤ column ∨ Rows b ≤ row)) ∧
  (Columns b ≤ column ∨ Rows b ≤ row →
   Get b row column = Some (false, Some ErrIllegalIndex) ∧
   Set_ b row column value = Some (b, Some ErrIllegalIndex)).
Proof.
  split; [apply Get_error_iff|]. split; [apply Set_error_iff|].
  intros H. split; [by apply Get_illegal | by apply Set_illegal].
Qed.

Lemma bounds_check_exact_witness :
  Get test_table 10 0 = Some (false, Some ErrIllegalIndex) ∧
  Set_ test_table 10 0 true = Some (test_table, Some ErrIllegalIndex).
Proof.
  apply (bounds_check_exact test_table 10 0 true). right. evaluated.
Defined.

(** X12. [Set] never resizes: whatever the arguments, when it returns, the row
    and column counts and the length of the buffer are as before, a table
    of the data model stays one, and a returned error means an unchanged
    table. *)
Theorem Set_keeps_shape b row column value b' e :
  Set_ b row column value = Some (b', e) →
  rows b' = rows b ∧ columns b' = columns b ∧
  length (bitmap b') = length (bitmap b) ∧
  (table_inv b → table_inv b') ∧
  (e ≠ None → b' = b).
Proof.
  intros HS.
  assert (Hinv : table_inv b → table_inv b')
    by (intros Hinv; eapply Set_preserves_inv; eauto).
  unfold Set_ in HS. destruct (_ || _).
  - by simplify_eq.
  - destruct (getPos b row column) as [by_ bit].
    destruct (index (bitmap b) by_) as [d|]; simpl in HS; [|done].
    destruct (setBit d bit value) as [d'|]; simpl in HS; [|done].
    simplify_eq. simpl. do 2 (split; [done|]).
    split; [apply length_insert|]. split; [done|]. done.
Qed.

Lemma Set_keeps_shape_witness :
  ∃ b', Set_ test_table 1 (-1) true = Some (b', None) ∧
        rows b' = 10 ∧ columns b' = 5 ∧ length (bitmap b') = 7%nat ∧
        (table_inv test_table → table_inv b').
Proof.
  eexists. split; [reflexivity|].
  edestruct (Set_keeps_shape test_table 1 (-1) true) as (H1 & H2 & H3 & H4 & _);
    [reflexivity|].
  split; [exact H1|]. split; [exact H2|]. split; [exact H3|exact H4].
Defined.

End construction_edges.

Section sibling_bitmap.
Import GoInt Bitmap BitmapModel.
Import Model.

Ltac evaluated :=
  vm_compute; repeat first [discriminate | reflexivity | split | constructor].

(** One bit of a buffer of bytes written with [setBit]. *)
Lemma buffer_set_bit (bm : list Z) n bit v :
  Forall (λ d, 0 ≤ d < 256) bm → 0 ≤ n < len bm → 0 ≤ bit < 8 →
  ∃ d d', index bm n = Some d ∧ Bitmaptable.setBit d bit v = Some d' ∧
          Forall (λ d, 0 ≤ d < 256) (<[Z.to_nat n := d']> bm) ∧
          ∀ k j, bit_of (<[Z.to_nat n := d']> bm) k j =
                 if decide ((k, j) = (n, bit)) then Some v else bit_of bm k j.
Proof.
  intros Hbytes Hn Hbit.
  destruct (index_Some bm n Hn) as [d Hd].
  pose proof Hd as Hd'. rewrite index_lookup in Hd' by lia.
  assert (Hdr : 0 ≤ d < 256) by apply (Forall_lookup_1 _ _ _ _ Hbytes Hd').
  destruct (setBit_testbit d bit v Hdr Hbit) as (d' & Hs & Hr' & Hbits).
  apply lookup_lt_Some in Hd' as Hlt.
  exists d, d'. do 2 (split; [done|]). split; [by apply Forall_insert|].
  intros k j. unfold bit_of.
  destruct (decide (0 ≤ k)) as [Hk|Hk].
  - rewrite !index_lookup by done.
    destruct (decide (k = n)) as [->|Hne].
    + rewrite list_lookup_insert_eq, Hd' by done. simpl. rewrite Hbits.
      destruct (decide (j = bit)) as [->|Hj].
      * by rewrite decide_True.
      * rewrite decide_False; [done|congruence].
    + rewrite list_lookup_insert_ne by lia.
      rewrite decide_False; [done|congruence].
  - rewrite !index_neg by lia.
    rewrite decide_False; [done|]. intros [= -> _]. lia.
Qed.

Lemma flat_inj C r1 c1 r2 c2 :
  0 ≤ c1 < C → 0 ≤ c2 < C → (r1, c1) ≠ (r2, c2) →
  r1 * C + c1 ≠ r2 * C + c2.
Proof.
  intros Hc1 Hc2 Hne Heq.
  destruct (Z.lt_trichotomy r1 r2) as [?|[->|?]]; [nia| |nia].
  apply Hne. f_equal. lia.
Qed.

Lemma bitmap_check_passes s id pos :
  in_bitmap s id pos → (pos >=? w s) || (id >? i s) = false.
Proof.
  intros [Hid Hpos]. apply orb_false_iff.
  rewrite Z.geb_leb, Z.gtb_ltb. split; [apply Z.leb_gt|apply Z.ltb_ge]; lia.
Qed.

Lemma bitmap_position s id pos :
  bitmap_inv s → in_bitmap s id pos →
  add (mul id (w s)) pos = id * w s + pos ∧
  0 ≤ id * w s + pos < i s * w s.
Proof.
  intros Hinv [Hid Hpos]. pose proof (binv_cells _ Hinv) as Hcells.
  assert (H : 0 ≤ id * w s + pos < i s * w s) by nia.
  split; [|done]. unfold add, mul.
  rewrite (wrap_id (id * w s)) by (unfold int_min; nia).
  apply wrap_id. unfold int_min. lia.
Qed.

Lemma bitmap_Get_bit_of s id pos :
  bitmap_inv s → in_bitmap s id pos →
  Get s id pos =
    v ← bit_of (a s) ((id * w s + pos) / 8) ((id * w s + pos) `mod` 8);
    Some (v, None).
Proof.
  intros Hinv Hin. destruct (bitmap_position _ _ _ Hinv Hin) as [Hp Hr].
  pose proof (binv_cells _ Hinv) as Hcells.
  unfold Get. rewrite bitmap_check_passes by done. simpl.
  rewrite Hp, div8_nonneg, rem8_nonneg by lia. unfold bit_of.
  destruct (index (a s) _) as [d|]; [simpl|done].
  change (Bitmap.getBit d) with (Bitmaptable.getBit d).
  by rewrite getBit_testbit by apply bit_index_range.
Qed.

Lemma bitmap_Set_bits s id pos v :
  bitmap_inv s → in_bitmap s id pos →
  ∃ s', Set_ s id pos v = Some (s', None) ∧
        i s' = i s ∧ w s' = w s ∧ length (a s') = length (a s) ∧
        bitmap_inv s' ∧
        ∀ k j, bit_of (a s') k j =
               if decide ((k, j) = ((id * w s + pos) / 8,
                                    (id * w s + pos) `mod` 8))
               then Some v else bit_of (a s) k j.
Proof.
  intros Hinv Hin. destruct (bitmap_position _ _ _ Hinv Hin) as [Hp Hr].
  destruct Hinv as [H1 H2 H3 H4 H5]. destruct Hin as [Hid Hpos].
  pose proof (byte_index_bound _ _ _ _ Hid Hpos) as Hby.
  destruct (buffer_set_bit (a s) ((id * w s + pos) / 8)
              ((id * w s + pos) `mod` 8) v H5)
    as (d & d' & Hd & Hs & Hbytes & Hbits); [lia|apply bit_index_range|].
  eexists. split.
  { unfold Set_. rewrite bitmap_check_passes by done. simpl.
    rewrite Hp, div8_nonneg, rem8_nonneg by lia. rewrite Hd. simpl.
    change (Bitmap.setBit d) with (Bitmaptable.setBit d). rewrite Hs. done. }
  simpl. do 2 (split; [done|]). split; [apply length_insert|].
  split; [|done]. split; simpl; try done.
  unfold len in *. by rewrite length_insert.
Qed.

Lemma bitmap_New_inv size width :
  0 ≤ size ≤ int_max → 0 ≤ width ≤ int_max → size * width ≤ int_max →
  ∃ s, New size width = Some s ∧ i s = size ∧ w s = width ∧
       a s = replicate (Z.to_nat (ceil8 (size * width))) 0 ∧
       bitmap_inv s.
Proof.
  intros Hs Hw Hp. unfold New.
  change (if decide (rem (mul size width) 8 ≠ 0)
          then add (div (mul size width) 8) 1 else div (mul size width) 8)
    with (Bitmaptable.calculateSize size width).
  rewrite calculateSize_ceil by nia.
  assert (Hsz : 0 ≤ ceil8 (size * width))
    by (unfold ceil8; Z.div_mod_to_equations; nia).
  unfold make. rewrite decide_True by done. simpl.
  eexists. do 4 (split; [done|]). split; simpl; try lia.
  - unfold len. rewrite length_replicate. lia.
  - apply Forall_replicate. lia.
Qed.

(** X13. [bitmap.New] on arguments whose product is an [int]: the array is
    [ceil(size * width / 8)] zero bytes, and every position of every
    identity below [size] reads [false] without an error. *)
Theorem bitmap_New_zeroed size width :
  0 ≤ size ≤ int_max → 0 ≤ width ≤ int_max → size * width ≤ int_max →
  ∃ s, New size width = Some s ∧ i s = size ∧ w s = width ∧
       len (a s) = ceil8 (size * width) ∧
       Forall (λ d, d = 0) (a s) ∧
       ∀ id pos, in_bitmap s id pos → Get s id pos = Some (false, None).
Proof.
  intros Hs Hw Hp.
  destruct (bitmap_New_inv _ _ Hs Hw Hp) as (s & HN & <- & <- & Ha & Hinv).
  assert (Hsz : 0 ≤ ceil8 (i s * w s))
    by (unfold ceil8; Z.div_mod_to_equations; nia).
  exists s. do 3 (split; [done|]). split.
  { rewrite Ha. unfold len. rewrite length_replicate. lia. }
  split; [rewrite Ha; apply replicate_zero_bytes|].
  intros id pos Hin. rewrite (bitmap_Get_bit_of _ _ _ Hinv Hin).
  destruct Hin as [Hid Hpos].
  pose proof (byte_index_bound _ _ _ _ Hid Hpos) as Hby.
  unfold bit_of. rewrite index_lookup by lia. rewrite Ha.
  rewrite lookup_replicate_2 by lia. simpl. by rewrite Z.bits_0.
Qed.

Lemma bitmap_New_zeroed_witness :
  ∃ s, New 1001 4 = Some s ∧ i s = 1001 ∧ w s = 4 ∧
       len (a s) = ceil8 (1001 * 4) ∧
       Forall (λ d, d = 0) (a s) ∧
       ∀ id pos, in_bitmap s id pos → Get s id pos = Some (false, None).
Proof. apply (bitmap_New_zeroed 1001 4); evaluated. Defined.

(** X14. Round trip and frame in the sibling package: for an identity below the
    size and a position below the width, [Set] returns no error, [Get] then
    returns the value written, every other such cell reads as before, and
    the bitmap stays in its data model. *)
Theorem bitmap_Set_Get s id pos v :
  bitmap_inv s → in_bitmap s id pos →
  ∃ s', Set_ s id pos v = Some (s', None) ∧
        bitmap_inv s' ∧ i s' = i s ∧ w s' = w s ∧
        Get s' id pos = Some (v, None) ∧
        ∀ id2 pos2, in_bitmap s id2 pos2 → (id2, pos2) ≠ (id, pos) →
                    Get s' id2 pos2 = Get s id2 pos2.
Proof.
  intros Hinv Hin.
  destruct (bitmap_Set_bits _ _ _ v Hinv Hin)
    as (s' & HS & Hi & Hw & _ & Hinv' & Hbits).
  assert (Hsame : ∀ id2 pos2, in_bitmap s id2 pos2 → in_bitmap s' id2 pos2)
    by (unfold in_bitmap; by rewrite Hi, Hw).
  exists s'. do 4 (split; [done|]). split.
  - rewrite bitmap_Get_bit_of, Hw, Hbits, decide_True by eauto. done.
  - intros id2 pos2 Hin2 Hne.
    rewrite (bitmap_Get_bit_of s'), (bitmap_Get_bit_of s) by eauto.
    rewrite Hw, Hbits, decide_False; [done|].
    apply byte_bit_inj, (flat_inj (w s)); [apply Hin2|apply Hin|done].
Qed.

Lemma bitmap_Set_Get_witness :
  ∃ s', Set_ (mk_bitmap 10 5 (replicate 7 0)) 9 4 true = Some (s', None) ∧
        bitmap_inv s' ∧ i s' = 10 ∧ w s' = 5 ∧
        Get s' 9 4 = Some (true, None) ∧
        ∀ id2 pos2, in_bitmap (mk_bitmap 10 5 (replicate 7 0)) id2 pos2 →
                    (id2, pos2) ≠ (9, 4) →
                    Get s' id2 pos2 = Get (mk_bitmap 10 5 (replicate 7 0)) id2 pos2.
Proof.
  apply (bitmap_Set_Get (mk_bitmap 10 5 (replicate 7 0)) 9 4 true);
    split; evaluated.
Defined.

(** X15. The identity [size] itself is never refused by the sibling package.
    On a fresh bitmap it is served from the padding bits of the last byte
    when its bit falls there, [Get] returning [false] and [Set] writing
    without an error, and it panics on the index otherwise. *)
Theorem bitmap_boundary size width pos v :
  0 ≤ size → 0 ≤ pos < width → size * width + width ≤ int_max →
  ∃ s, New size width = Some s ∧
       if decide ((size * width + pos) / 8 < ceil8 (size * width))
       then Get s size pos = Some (false, None) ∧
            ∃ s', Set_ s size pos v = Some (s', None)
       else Get s size pos = None ∧ Set_ s size pos v = None.
Proof.
  intros Hs Hpos Hp.
  assert (Hsw : size * width ≤ int_max) by nia.
  assert (Hs' : 0 ≤ size ≤ int_max) by nia.
  assert (Hw' : 0 ≤ width ≤ int_max) by nia.
  destruct (bitmap_New_inv _ _ Hs' Hw' Hsw) as (s & HN & Hi & Hw & Ha & _).
  exists s. split; [done|].
  assert (Hsz : 0 ≤ ceil8 (size * width))
    by (unfold ceil8; Z.div_mod_to_equations; nia).
  assert (Hchk : (pos >=? w s) || (size >? i s) = false).
  { apply orb_false_iff. rewrite Z.geb_leb, Z.gtb_ltb, Hi, Hw.
    split; [apply Z.leb_gt|apply Z.ltb_ge]; lia. }
  assert (Hl : add (mul size (w s)) pos = size * width + pos).
  { rewrite Hw. unfold add, mul.
    rewrite (wrap_id (size * width)) by (unfold int_min; nia).
    apply wrap_id. unfold int_min. nia. }
  assert (Hby : 0 ≤ (size * width + pos) / 8)
    by (Z.div_mod_to_equations; nia).
  unfold Get, Set_. rewrite Hchk, Hl. simpl.
  rewrite div8_nonneg, rem8_nonneg by nia.
  rewrite index_lookup, Ha by done.
  pose proof (bit_index_range (size * width + pos)) as Hbit.
  case_decide as Hin.
  - assert (Hlk : replicate (Z.to_nat (ceil8 (size * width))) 0
                    !! Z.to_nat ((size * width + pos) / 8) = Some 0)
      by (apply lookup_replicate_2; lia).
    rewrite Hlk. simpl.
    change (Bitmap.getBit 0) with (Bitmaptable.getBit 0).
    change (Bitmap.setBit 0) with (Bitmaptable.setBit 0).
    rewrite getBit_testbit, Z.bits_0 by done. split; [done|].
    destruct (setBit_testbit 0 _ v ltac:(lia) Hbit) as (d' & -> & _).
    simpl. eauto.
  - assert (Hlk : replicate (Z.to_nat (ceil8 (size * width))) 0
                    !! Z.to_nat ((size * width + pos) / 8) = None)
      by (apply lookup_replicate_None; lia).
    rewrite Hlk. done.
Qed.

Lemma bitmap_boundary_witness :
  ∃ s, New 1000 12 = Some s ∧
       Get s 1000 0 = None ∧ Set_ s 1000 0 true = None.
Proof.
  destruct (bitmap_boundary 1000 12 0 true) as (s & HN & H); [evaluated..|].
  exists s. split; [exact HN|].
  rewrite decide_False in H by (vm_compute; discriminate). exact H.
Defined.

(** X16. The two packages compute the same: on a bitmap whose width fits the
    [uint16] column field, [bitmaptable.Get] and [bitmaptable.Set] on the
    table with the same fields return what [bitmap.Get] and [bitmap.Set]
    return, panics included, for all arguments but the identity [size],
    negative ones as well. *)
Theorem packages_agree s id pos v :
  0 ≤ i s ≤ int_max → 0 ≤ w s < 2 ^ 16 → id ≠ i s →
  Bitmaptable.Get (as_table s) id pos
    = (λ r, (r.1, as_table_error r.2)) <$> Get s id pos ∧
  Bitmaptable.Set_ (as_table s) id pos v
    = (λ r, (as_table r.1, as_table_error r.2)) <$> Set_ s id pos v.
Proof.
  intros Hi Hw Hne.
  assert (HI : wrap (i s) = i s) by (apply wrap_id; unfold int_min; lia).
  assert (HW : wrap (w s) = w s)
    by (apply wrap_id; unfold int_min, int_max; lia).
  assert (Hchk : (pos >=? w s) || (id >=? i s) = (pos >=? w s) || (id >? i s)).
  { f_equal. rewrite Z.geb_leb, Z.gtb_ltb.
    destruct (Z.leb_spec (i s) id), (Z.ltb_spec (i s) id); try done; lia. }
  unfold Bitmaptable.Get, Bitmaptable.Set_, Bitmaptable.getPos, Get, Set_,
    as_table. simpl. rewrite HI, HW, Hchk. clear Hchk.
  destruct (_ || _); [done|]. split.
  - destruct (index (a s) _) as [d|]; [simpl|done].
    change (Bitmap.getBit d) with (Bitmaptable.getBit d).
    by destruct (Bitmaptable.getBit d _).
  - destruct (index (a s) _) as [d|]; [simpl|done].
    change (Bitmap.setBit d) with (Bitmaptable.setBit d).
    by destruct (Bitmaptable.setBit d _ v).
Qed.

Lemma packages_agree_witness :
  Bitmaptable.Get (as_table (mk_bitmap 10 5 (replicate 7 0))) 1 (-1)
    = (λ r, (r.1, as_table_error r.2))
        <$> Get (mk_bitmap 10 5 (replicate 7 0)) 1 (-1) ∧
  Bitmaptable.Set_ (as_table (mk_bitmap 10 5 (replicate 7 0))) 1 (-1) true
    = (λ r, (as_table r.1, as_table_error r.2))
        <$> Set_ (mk_bitmap 10 5 (replicate 7 0)) 1 (-1) true.
Proof.
  apply (packages_agree (mk_bitmap 10 5 (replicate 7 0)) 1 (-1) true);
    evaluated.
Defined.

End sibling_bitmap.

Section wrappers.
Import GoInt.

Ltac evaluated :=
  vm_compute; repeat first [discriminate | reflexivity | split | constructor].

Lemma bitmapTS_call_unlocked s c :
  BitmapTS.call_ts (BitmapTS.mk_bitmapTS s false) c =
  (λ r, (BitmapTS.mk_bitmapTS r.1 false, r.2)) <$> BitmapTS.call_plain s c.
Proof.
  destruct c as [id pos|id pos value]; simpl.
  - unfold BitmapTS.Get. simpl. by destruct (Bitmap.Get s id pos).
  - unfold BitmapTS.Set_. simpl. by destruct (Bitmap.Set_ s id pos value).
Qed.

Lemma bitmapTS_run_unlocked cs : ∀ s,
  BitmapTS.run_ts (BitmapTS.mk_bitmapTS s false) cs =
  (λ r, (BitmapTS.mk_bitmapTS r.1 false, r.2)) <$> BitmapTS.run_plain s cs.
Proof.
  induction cs as [|c cs IH]; intros s; [done|]. simpl.
  rewrite bitmapTS_call_unlocked.
  destruct (BitmapTS.call_plain s c) as [[s1 r]|]; [simpl|done].
  rewrite IH. by destruct (BitmapTS.run_plain s1 cs) as [[s2 rs]|].
Qed.

(** X17. The thread-safe bitmap run by one thread: [NewTS(size, width)] followed
    by any sequence of [Get] and [Set] calls returns the results, ends with
    the bitmap and panics exactly as [New(size, width)] followed by the same
    calls, and ends with its mutex free. *)
Theorem bitmapTS_equivalent size width cs :
  (t ← BitmapTS.NewTS size width; BitmapTS.run_ts t cs) =
  (λ r, (BitmapTS.mk_bitmapTS r.1 false, r.2))
    <$> (s ← Bitmap.New size width; BitmapTS.run_plain s cs).
Proof.
  unfold BitmapTS.NewTS.
  destruct (Bitmap.New size width) as [s|]; [simpl|done].
  apply bitmapTS_run_unlocked.
Qed.

(** X18. The locking of the table wrapper, as one thread sees it.  From a free
    mutex every call that returns leaves the mutex free and the wrapped
    table in place.  While the mutex is held, [Set] and [Data] do not
    return, and [Get] answers all the same: it does not take the lock,
    unlike [Get] of the thread-safe bitmap. *)
Theorem ts_lock_discipline t c (h : Shared.heap) :
  (TS.mu t = false →
   ∀ r t' h', Calls.call_ts t c h = Some (r, t', h') →
              TS.mu t' = false ∧ TS.b t' = TS.b t) ∧
  (TS.mu t = true →
   (∀ row column value, TS.Set_ t row column value h = None) ∧
   (∀ cp, TS.Data t cp h = None) ∧
   (∀ row column,
      TS.Get t row column h = Shared.Get (TS.b t) row column h) ∧
   (∀ s id pos, BitmapTS.Get (BitmapTS.mk_bitmapTS s true) id pos = None)).
Proof.
  destruct t as [m b]. simpl. split.
  - intros -> r t' h' Hc. rewrite call_ts_unlocked in Hc.
    destruct (Calls.call_nts b c h) as [[r0 h0]|]; simpl in Hc; [|done].
    by simplify_eq.
  - intros ->. done.
Qed.

Lemma ts_lock_discipline_witness :
  Calls.call_ts (TS.mk_ts false (Shared.mk_ref 10 5 0))
    (Calls.CSet 5 4 true) [replicate 7 0]
  = Some (Calls.RSet None, TS.mk_ts false (Shared.mk_ref 10 5 0),
          [[0; 0; 0; 32; 0; 0; 0]]) ∧
  TS.mu (TS.mk_ts false (Shared.mk_ref 10 5 0)) = false ∧
  TS.b (TS.mk_ts false (Shared.mk_ref 10 5 0)) = Shared.mk_ref 10 5 0.
Proof.
  split; [reflexivity|].
  apply (proj1 (ts_lock_discipline (TS.mk_ts false (Shared.mk_ref 10 5 0))
                  (Calls.CSet 5 4 true) [replicate 7 0])
           eq_refl (Calls.RSet None) (TS.mk_ts false (Shared.mk_ref 10 5 0))
           [[0; 0; 0; 32; 0; 0; 0]]).
  reflexivity.
Defined.

End wrappers.

Section tables_in_the_heap.
Import GoInt.

Ltac evaluated :=
  vm_compute; repeat first [discriminate | reflexivity | split | constructor].

Lemma newNTS_heap rows columns (h h1 : Shared.heap) b :
  Shared.newNTS rows columns h = Some (b, h1) →
  ∃ t, Bitmaptable.newNTS rows columns = Some t ∧
       b = Shared.mk_ref (Bitmaptable.rows t) (Bitmaptable.columns t) (length h) ∧
       h1 = h ++ [Bitmaptable.bitmap t].
Proof.
  unfold Shared.newNTS, Shared.alloc. intros H.
  destruct (Bitmaptable.newNTS rows columns) as [t|]; simpl in H; [|done].
  exists t. by simplify_eq.
Qed.

(** X19. Tables do not share buffers: the buffer of a new table is none of the
    arrays already in the heap, construction changes what no live table
    reads, and afterwards a [Set] on either of the new table and a live one
    changes nothing the other reads. *)
Theorem new_table_independent rows columns (h h1 : Shared.heap) b b0 :
  Shared.newNTS rows columns h = Some (b, h1) →
  is_Some (h !! Shared.bitmap b0) →
  Shared.bitmap b ≠ Shared.bitmap b0 ∧
  (∀ r c, Shared.Get b0 r c h1 = Shared.Get b0 r c h) ∧
  (∀ row column value e h2,
     Shared.Set_ b row column value h1 = Some (e, h2) →
     ∀ r c, Shared.Get b0 r c h2 = Shared.Get b0 r c h1) ∧
  (∀ row column value e h2,
     Shared.Set_ b0 row column value h1 = Some (e, h2) →
     ∀ r c, Shared.Get b r c h2 = Shared.Get b r c h1).
Proof.
  intros Hnew Hlive.
  destruct (newNTS_heap _ _ _ _ _ Hnew) as (t & _ & -> & ->). simpl.
  apply lookup_lt_is_Some in Hlive.
  assert (Hne : length h ≠ Shared.bitmap b0) by lia.
  split; [done|]. split; [|split].
  - intros r c. apply Get_same_buffer. by rewrite lookup_app_l.
  - intros row column value e h2 HS r c. apply Get_same_buffer.
    apply (Set_other_slice _ _ _ _ _ _ _ _ HS). simpl. lia.
  - intros row column value e h2 HS r c. apply Get_same_buffer. simpl.
    apply (Set_other_slice _ _ _ _ _ _ _ _ HS). lia.
Qed.

Lemma new_table_independent_witness :
  Shared.bitmap (Shared.mk_ref 4 4 1) ≠ Shared.bitmap (Shared.mk_ref 10 5 0) ∧
  (∀ r c, Shared.Get (Shared.mk_ref 10 5 0) r c [replicate 7 0; replicate 2 0]
          = Shared.Get (Shared.mk_ref 10 5 0) r c [replicate 7 0]).
Proof.
  destruct (new_table_independent 4 4 [replicate 7 0]
              [replicate 7 0; replicate 2 0]
              (Shared.mk_ref 4 4 1) (Shared.mk_ref 10 5 0))
    as (H1 & H2 & _); [reflexivity|by eexists|].
  split; [exact H1|exact H2].
Defined.

(** X20. Round trip through the heap and through the wrapper: on a table whose
    buffer in the heap makes it a table of the data model, and with its
    mutex free, [Set] on the thread-safe table returns no error, leaves the
    mutex free, and [Get] on it then returns the value written; the plain
    table at the same buffer reads the same. *)
Theorem ts_Set_Get b (h : Shared.heap) t row column v :
  Shared.load h b = Some t → Model.table_inv t →
  Model.in_table t row column →
  ∃ h1, TS.Set_ (TS.mk_ts false b) row column v h
          = Some (None, TS.mk_ts false b, h1) ∧
        TS.Get (TS.mk_ts false b) row column h1 = Some (v, None) ∧
        Shared.Get b row column h1 = Some (v, None).
Proof.
  intros Hload Hinv Hin.
  destruct (Set_bits _ _ _ v Hinv Hin) as (t1 & HS & Hr & Hc & _ & Hinv1 & Hb).
  unfold Shared.load in Hload.
  destruct (h !! Shared.bitmap b) as [bm|] eqn:Hbm; simpl in Hload; [|done].
  apply lookup_lt_Some in Hbm as Hlt.
  exists (<[Shared.bitmap b := Bitmaptable.bitmap t1]> h).
  assert (Hset : Shared.Set_ b row column v h
                 = Some (None, <[Shared.bitmap b := Bitmaptable.bitmap t1]> h)).
  { unfold Shared.Set_, Shared.load. rewrite Hbm. simpl.
    injection Hload as <-. rewrite HS. done. }
  assert (Hget : Shared.Get b row column
                   (<[Shared.bitmap b := Bitmaptable.bitmap t1]> h)
                 = Some (v, None)).
  { unfold Shared.Get, Shared.load.
    rewrite list_lookup_insert_eq by done. simpl.
    injection Hload as <-. simpl in Hr, Hc.
    assert (Heq : Bitmaptable.mk_bitmaptable (Shared.rows b) (Shared.columns b)
                    (Bitmaptable.bitmap t1) = t1)
      by (destruct t1; simpl in *; congruence).
    rewrite Heq.
    assert (Hin1 : Model.in_table t1 row column).
    { unfold Model.in_table, Bitmaptable.Rows, Bitmaptable.Columns in *.
      simpl in Hin. by rewrite Hr, Hc. }
    rewrite (Get_bit_of _ _ _ Hinv1 Hin1).
    replace (Bitmaptable.Columns t1) with
      (Bitmaptable.Columns
         (Bitmaptable.mk_bitmaptable (Shared.rows b) (Shared.columns b) bm))
      by (unfold Bitmaptable.Columns; simpl; by rewrite Hc).
    by rewrite Hb, decide_True. }
  split; [|split; [exact Hget|exact Hget]].
  unfold TS.Set_. simpl. by rewrite Hset.
Qed.

Lemma ts_Set_Get_witness :
  ∃ h1, TS.Set_ (TS.mk_ts false (Shared.mk_ref 10 5 0)) 5 4 true [replicate 7 0]
          = Some (None, TS.mk_ts false (Shared.mk_ref 10 5 0), h1) ∧
        TS.Get (TS.mk_ts false (Shared.mk_ref 10 5 0)) 5 4 h1 = Some (true, None) ∧
        Shared.Get (Shared.mk_ref 10 5 0) 5 4 h1 = Some (true, None).
Proof.
  apply (ts_Set_Get (Shared.mk_ref 10 5 0) [replicate 7 0] Model.test_table 5 4 true);
    solve [reflexivity | split; evaluated].
Defined.

End tables_in_the_heap.

Section allocation.
Import GoInt Bitmaptable Model Access.

Ltac evaluated :=
  vm_compute; repeat first [discriminate | reflexivity | split | constructor].

(** The table of [New(1 << 62, 4)]: the product of its arguments wraps
    around to 0, the buffer is empty, cell [(0, 0)] passes the bounds check
    and [Get] and [Set] panic on [bitmap[0]]. *)
Lemma overflow_table_panics :
  ∃ b, newNTS (2 ^ 62) 4 = Some b ∧
       calculateSize (2 ^ 62) 4 = 0 ∧ bitmap b = [] ∧
       0 < Rows b ∧ 0 < Columns b ∧ in_table b 0 0 ∧
       getPos b 0 0 = (0, 0) ∧
       Get b 0 0 = None ∧ Set_ b 0 0 true = None.
Proof.
  exists (mk_bitmaptable (2 ^ 62) 4 []).
  split; [vm_compute; reflexivity|]. evaluated.
Qed.

(** C10, as stated, fails where the product of the arguments wraps around:
    on the table of [New(1 << 62, 4)], with 2^62 rows and 4 columns, the
    buffer is empty and [Get(0, 0)] indexes it at byte 0. *)
Lemma access_overflow : ¬ access_in_buffer (2 ^ 62) 4.
Proof.
  intros H.
  destruct (H (mk_bitmaptable (2 ^ 62) 4 [])) as [_ Hcell];
    [vm_compute; reflexivity|].
  destruct (Hcell 0 0) as (_ & [r Hget] & _); [evaluated..|].
  vm_compute in Hget. discriminate.
Qed.

(** C10 (amended). In-bounds buffer access: for [rowCount > 0] and
    [columnCount > 0] whose product is an [int] (no wrap-around),
    [newNTS(rowCount, columnCount)] returns a table whose buffer has the
    [calculateSize(rowCount, columnCount) = ceil(rowCount * columnCount / 8)]
    bytes; for every [0 <= row < rowCount], [0 <= column < columnCount] the
    byte index [(row * columnCount + column) / 8] is below that length,
    [Get] and [Set] do not panic, and the byte index [getPos] computes for
    them, [(row * Columns() + column) / 8], which is
    [(row * columnCount + column) / 8] for [columnCount < 2^16], lies inside
    the buffer. *)
Theorem access_in_allocated_buffer rowCount columnCount :
  0 < rowCount ≤ int_max → 0 < columnCount ≤ int_max →
  rowCount * columnCount ≤ int_max →
  (∃ b, newNTS rowCount columnCount = Some b ∧
        len (bitmap b) = calculateSize rowCount columnCount) ∧
  calculateSize rowCount columnCount = ceil8 (rowCount * columnCount) ∧
  access_in_buffer rowCount columnCount.
Proof.
  intros Hr Hc Hp.
  destruct (newNTS_inv rowCount columnCount) as
    (b & Hb & HR & HC & _ & Hlen & Hinv); [lia..|].
  pose proof (calculateSize_ceil rowCount columnCount ltac:(nia)) as Hsize.
  split; [exists b; split; [done|congruence]|]. split; [done|].
  intros b' Hb'. assert (b' = b) as -> by congruence.
  split; [done|]. intros row column Hrow Hcol.
  pose proof (byte_index_bound _ _ _ _ Hrow Hcol) as Hbound.
  pose proof (Z.mod_pos_bound columnCount (2 ^ 16) ltac:(lia)) as Hmod.
  assert (Hcase : in_table b row column ∨ Columns b ≤ column)
    by (unfold in_table; rewrite HR; lia).
  assert (Hin : in_table b row column →
                (getPos b row column).1 = (row * Columns b + column) / 8 ∧
                0 ≤ (getPos b row column).1 < len (bitmap b) ∧
                is_Some (index (bitmap b) (getPos b row column).1)).
  { intros Hin. rewrite (getPos_exact _ _ _ Hinv Hin). simpl.
    destruct Hin as [Hrow' Hcol'].
    pose proof (byte_index_bound _ _ _ _ Hrow' Hcol') as Hby.
    pose proof (inv_len _ Hinv) as Hlen'.
    split; [done|]. split; [lia|]. apply index_Some. lia. }
  split; [lia|]. split; [|split; [|split; [done|]]].
  - destruct Hcase as [Hin'|Hout].
    + destruct (Get_in_table b row column Hinv Hin') as (d & _ & ->). eauto.
    + rewrite Get_illegal by auto. eauto.
  - intros v. destruct Hcase as [Hin'|Hout].
    + destruct (Set_in_table b row column v Hinv Hin')
        as (d & d' & _ & _ & _ & ->). eauto.
    + rewrite Set_illegal by auto. eauto.
  - intros Hsmall.
    assert (HC' : Columns b = columnCount)
      by (rewrite HC; apply Z.mod_small; lia).
    assert (Hin' : in_table b row column)
      by (unfold in_table; rewrite HR, HC'; lia).
    destruct (Hin Hin') as [-> _]. by rewrite HC'.
Qed.

Lemma access_in_allocated_buffer_witness :
  (∃ b, newNTS 10 5 = Some b ∧ len (bitmap b) = calculateSize 10 5) ∧
  calculateSize 10 5 = ceil8 (10 * 5) ∧
  access_in_buffer 10 5.
Proof. apply (access_in_allocated_buffer 10 5); evaluated. Defined.

End allocation.
